(** * Customer-support chatbot: intent resolution and dialogue sessions

    A shallow embedding of [app.py]: the entity extractors, the intent
    classifier [match_intent], the response generator
    [get_personalized_response], the quick-reply table and the three
    request handlers [chat], [get_history] and [clear_session] over the
    process-wide [conversations] dictionary.

    Conventions of the model.
    - A Python [str] is a [string]; character classes ([\w], [\s], [\d]),
      [str.lower], [str.strip], [str.split] and [str.capitalize] are the
      ASCII ones.  Characters above 127 are carried through unchanged and
      belong to no class: on ASCII text ([ascii_text]) these functions are
      Python's, on other text they are not, and the statements that depend
      on them are stated for ASCII text.
    - [chat] takes the message and the session id as the strings read from
      the body of the request; [chat_route] reads them from the body, with
      the defaults of [data.get].  What the program prints on its console is
      not part of the model.
    - The regular expressions of the source are terms of [regex], run by a
      backtracking matcher that tries the alternatives in the order of
      Python's [re] module (greedy first, leftmost start first).
    - [conversations] is a [gmap string Session]; a handler is a function
      from the [World] before the request to an [Outcome] and the [World]
      after it.  An uncaught exception is the outcome [Raise]; the world it
      leaves behind keeps the mutations made before the exception.
    - The clock, the random generator and TextBlob are the fields of
      [Env]; [responses] (read from [responses.json] at start-up) is a
      field of [Env] too, with the built-in literal as [fallback_catalog]. *)

From Stdlib Require Import String Ascii QArith Lia.
From stdpp Require Import base gmap strings list.

Local Open Scope string_scope.

(** ** Text: the [str] methods the program calls *)

Module Text.

Definition in_range (lo hi : nat) (c : ascii) : bool :=
  (lo <=? nat_of_ascii c)%nat && (nat_of_ascii c <=? hi)%nat.

(** [str.isspace] on ASCII: TAB..CR, FS..US and the blank. *)
Definition is_space (c : ascii) : bool := in_range 9 13 c || in_range 28 32 c.

Definition is_digit (c : ascii) : bool := in_range 48 57 c.

Definition is_upper (c : ascii) : bool := in_range 65 90 c.

Definition is_lower (c : ascii) : bool := in_range 97 122 c.

(** [\w]: letters, digits and the underscore. *)
Definition is_word (c : ascii) : bool :=
  is_lower c || is_upper c || is_digit c || Ascii.eqb c "_".

Definition lower_char (c : ascii) : ascii :=
  if is_upper c then ascii_of_nat (nat_of_ascii c + 32) else c.

Definition upper_char (c : ascii) : ascii :=
  if is_lower c then ascii_of_nat (nat_of_ascii c - 32) else c.

(** [s.lower()] *)
Fixpoint lower (s : string) : string :=
  match s with
  | EmptyString => EmptyString
  | String c s' => String (lower_char c) (lower s')
  end.

(** [s.capitalize()]: first character upper-cased, the rest lower-cased. *)
Definition capitalize (s : string) : string :=
  match s with
  | EmptyString => EmptyString
  | String c s' => String (upper_char c) (lower s')
  end.

Fixpoint lstrip (s : string) : string :=
  match s with
  | EmptyString => EmptyString
  | String c s' => if is_space c then lstrip s' else s
  end.

Fixpoint rstrip (s : string) : string :=
  match s with
  | EmptyString => EmptyString
  | String c s' =>
      match rstrip s' with
      | EmptyString => if is_space c then EmptyString else String c EmptyString
      | r => String c r
      end
  end.

(** [s.strip()] *)
Definition strip (s : string) : string := lstrip (rstrip s).

(** [s.split()]: the maximal runs of non-blank characters, in order. *)
Fixpoint split (s : string) : list string :=
  match s with
  | EmptyString => []
  | String c s' =>
      if is_space c then split s'
      else
        match s' with
        | EmptyString => [String c EmptyString]
        | String c' _ =>
            if is_space c' then String c EmptyString :: split s'
            else
              match split s' with
              | w :: ws => String c w :: ws
              | [] => [String c EmptyString]
              end
        end
  end.

Fixpoint starts_with (p s : string) : bool :=
  match p, s with
  | EmptyString, _ => true
  | String a p', String c s' => Ascii.eqb a c && starts_with p' s'
  | String _ _, EmptyString => false
  end.

(** [p in s] *)
Fixpoint contains (p s : string) : bool :=
  starts_with p s ||
  match s with
  | EmptyString => false
  | String _ s' => contains p s'
  end.

Fixpoint take (n : nat) (s : string) : string :=
  match n, s with
  | S n', String c s' => String c (take n' s')
  | _, _ => EmptyString
  end.

(** Truth value of a [str]: non-empty. *)
Definition nonempty (s : string) : bool :=
  match s with EmptyString => false | String _ _ => true end.

(** Truth value of an optional [str]: [None] and [''] are false. *)
Definition truthy (o : option string) : bool :=
  match o with Some s => nonempty s | None => false end.

End Text.

(** ** Re: the fragment of Python's [re] the program uses *)

Module Re.

Inductive cclass : Type := Word | Space | Digit.

Definition in_class (k : cclass) (c : ascii) : bool :=
  match k with
  | Word => Text.is_word c
  | Space => Text.is_space c
  | Digit => Text.is_digit c
  end.

Inductive regex : Type :=
| Lit (l : string)                (* the characters of [l], in sequence *)
| Star (k : cclass)               (* [k*], greedy *)
| AtLeast (n : nat) (k : cclass)  (* [k{n,}], greedy; [k+] is [AtLeast 1 k] *)
| Opt (r : regex)                 (* [r?], greedy *)
| Seq (r1 r2 : regex)
| Group (r : regex)               (* the capturing group, [(r)] *)
| WordBoundary.                   (* [\b] *)

(** A successful match reports group 1 ([None]: the group took no part). *)
Definition captures : Type := option string.

(** Continuation: character before the position, rest of the text, group. *)
Definition cont : Type := option ascii -> string -> captures -> option captures.

Definition char_eq (ignorecase : bool) (a c : ascii) : bool :=
  if ignorecase then Ascii.eqb (Text.lower_char a) (Text.lower_char c)
  else Ascii.eqb a c.

Fixpoint lit (ic : bool) (l : string) (prev : option ascii) (s : string)
    (k : option ascii -> string -> option captures) : option captures :=
  match l with
  | EmptyString => k prev s
  | String a l' =>
      match s with
      | String c s' => if char_eq ic a c then lit ic l' (Some c) s' k else None
      | EmptyString => None
      end
  end.

(** Greedy repetition: take one more character first, give it back when
    the rest of the pattern fails. *)
Fixpoint star (cl : cclass) (prev : option ascii) (s : string)
    (k : option ascii -> string -> option captures) : option captures :=
  match s with
  | String c s' =>
      if in_class cl c then
        match star cl (Some c) s' k with
        | Some m => Some m
        | None => k prev s
        end
      else k prev s
  | EmptyString => k prev s
  end.

Fixpoint at_least (n : nat) (cl : cclass) (prev : option ascii) (s : string)
    (k : option ascii -> string -> option captures) : option captures :=
  match n with
  | O => star cl prev s k
  | S n' =>
      match s with
      | String c s' => if in_class cl c then at_least n' cl (Some c) s' k else None
      | EmptyString => None
      end
  end.

Definition is_word_opt (o : option ascii) : bool :=
  match o with Some c => Text.is_word c | None => false end.

Definition head (s : string) : option ascii :=
  match s with String c _ => Some c | EmptyString => None end.

(** [\b]: exactly one side of the position is a word character. *)
Definition at_boundary (prev : option ascii) (s : string) : bool :=
  xorb (is_word_opt prev) (is_word_opt (head s)).

Fixpoint run (ic : bool) (r : regex) (prev : option ascii) (s : string)
    (g : captures) (k : cont) : option captures :=
  match r with
  | Lit l => lit ic l prev s (fun p s' => k p s' g)
  | Star cl => star cl prev s (fun p s' => k p s' g)
  | AtLeast n cl => at_least n cl prev s (fun p s' => k p s' g)
  | Opt r' =>
      match run ic r' prev s g k with
      | Some m => Some m
      | None => k prev s g
      end
  | Seq r1 r2 => run ic r1 prev s g (fun p s' g' => run ic r2 p s' g' k)
  | Group r' =>
      run ic r' prev s g
        (fun p s' _ => k p s' (Some (Text.take (String.length s - String.length s') s)))
  | WordBoundary => if at_boundary prev s then k prev s g else None
  end.

(** [re.match] at one position. *)
Definition match_here (ic : bool) (r : regex) (prev : option ascii) (s : string)
    : option captures :=
  run ic r prev s None (fun _ _ g => Some g).

Fixpoint search_from (ic : bool) (r : regex) (prev : option ascii) (s : string)
    : option captures :=
  match match_here ic r prev s with
  | Some m => Some m
  | None =>
      match s with
      | String c s' => search_from ic r (Some c) s'
      | EmptyString => None
      end
  end.

(** [re.search(r, s)] and [re.search(r, s, re.IGNORECASE)]. *)
Definition search (ic : bool) (r : regex) (s : string) : option captures :=
  search_from ic r None s.

(** [r'\b' + re.escape(pattern) + r'\b'] *)
Definition whole_word (pattern : string) : regex :=
  Seq WordBoundary (Seq (Lit pattern) WordBoundary).

End Re.

(** ** The intent catalog *)

(** One value of the [responses] dictionary.  A key that is absent from the
    entry is [None]: the built-in [default] entry has no [patterns]. *)
Record IntentData : Type := mkIntentData {
  i_patterns : option (list string);
  i_responses : option (list string)
}.

(** The dictionary in its iteration order. *)
Definition catalog : Type := list (string * IntentData).

(** [responses.get(intent)] *)
Fixpoint catalog_get (responses : catalog) (intent : string) : option IntentData :=
  match responses with
  | [] => None
  | (k, d) :: rest => if String.eqb k intent then Some d else catalog_get rest intent
  end.

(** [intent in responses] *)
Definition catalog_mem (responses : catalog) (intent : string) : bool :=
  match catalog_get responses intent with Some _ => true | None => false end.

(** [data.get('patterns', [])] *)
Definition patterns_of (d : IntentData) : list string :=
  match i_patterns d with Some ps => ps | None => [] end.

(** The literal the program falls back to when [responses.json] is absent. *)
Definition fallback_catalog : catalog :=
  [ ("greeting",
      mkIntentData
        (Some ["hello"; "hi"; "hey"; "good morning"; "good afternoon"; "good evening"])
        (Some ["Hello! 👋 How can I help you today?"]));
    ("return",
      mkIntentData
        (Some ["return"; "refund"; "exchange"; "send back"])
        (Some ["You can return items within 30 days of purchase."]));
    ("default",
      mkIntentData None (Some ["I'm not sure about that. Can you rephrase?"])) ].

Definition SUPPORT_PHONE : string := "1-800-123-4567".

(** ** Entity extractors *)

Import Re.

(** [my name is (\w+)], [i am (\w+)], [i'm (\w+)], [call me (\w+)],
    [this is (\w+)] *)
Definition name_patterns : list regex :=
  [ Seq (Lit "my name is ") (Group (AtLeast 1 Word));
    Seq (Lit "i am ") (Group (AtLeast 1 Word));
    Seq (Lit "i'm ") (Group (AtLeast 1 Word));
    Seq (Lit "call me ") (Group (AtLeast 1 Word));
    Seq (Lit "this is ") (Group (AtLeast 1 Word)) ].

(** [match.groups()]: the pattern has one group. *)
Definition groups (m : captures) : list (option string) := [m].

(** [for group in match.groups(): if group: return group.capitalize()] *)
Fixpoint first_group (gs : list (option string)) : option string :=
  match gs with
  | [] => None
  | g :: rest =>
      if Text.truthy g
      then match g with Some s => Some (Text.capitalize s) | None => None end
      else first_group rest
  end.

Fixpoint extract_name_loop (patterns : list regex) (message : string) : option string :=
  match patterns with
  | [] => None
  | pattern :: rest =>
      match search false pattern message with
      | Some m =>
          match first_group (groups m) with
          | Some name => Some name
          | None => extract_name_loop rest message
          end
      | None => extract_name_loop rest message
      end
  end.

Definition extract_name (message : string) : option string :=
  let message := Text.lower message in
  extract_name_loop name_patterns message.

(** [order\s*#?\s*(\d{5,})], [#(\d{5,})], [ORD[-]?(\d{5,})],
    [tracking\s*#?\s*(\d{5,})] *)
Definition order_patterns : list regex :=
  [ Seq (Lit "order") (Seq (Star Space) (Seq (Opt (Lit "#"))
      (Seq (Star Space) (Group (AtLeast 5 Digit)))));
    Seq (Lit "#") (Group (AtLeast 5 Digit));
    Seq (Lit "ORD") (Seq (Opt (Lit "-")) (Group (AtLeast 5 Digit)));
    Seq (Lit "tracking") (Seq (Star Space) (Seq (Opt (Lit "#"))
      (Seq (Star Space) (Group (AtLeast 5 Digit))))) ].

(** [match.group(1)] is [None] when the group took no part in the match. *)
Fixpoint extract_order_loop (patterns : list regex) (message : string) : option string :=
  match patterns with
  | [] => None
  | pattern :: rest =>
      match search true pattern message with
      | Some m => m
      | None => extract_order_loop rest message
      end
  end.

Definition extract_order_number (message : string) : option string :=
  extract_order_loop order_patterns message.

(** ** Intent classifier *)

Definition priority_intents : list string :=
  ["return"; "refund"; "shipping"; "payment"; "contact"].

Definition greeting_patterns : list string := ["hello"; "hi"; "hey"; "greetings"].

(** [set(s.split())] *)
Definition word_set (s : string) : gset string := list_to_set (Text.split s).

(** The inner loop of the first pass: some pattern's words all occur in
    the message. *)
Definition priority_hit (words : gset string) (d : IntentData) : bool :=
  existsb (fun pattern => bool_decide (word_set pattern ⊆ words)) (patterns_of d).

Fixpoint priority_pass (responses : catalog) (intents : list string)
    (words : gset string) : option string :=
  match intents with
  | [] => None
  | intent :: rest =>
      match catalog_get responses intent with
      | Some d =>
          if priority_hit words d then Some intent
          else priority_pass responses rest words
      | None => priority_pass responses rest words
      end
  end.

(** The inner loop of the second pass: a whole-word match or a substring. *)
Definition general_hit (message : string) (d : IntentData) : bool :=
  existsb
    (fun pattern =>
       match search false (whole_word pattern) message with
       | Some _ => true
       | None => Text.contains pattern message
       end)
    (patterns_of d).

Definition in_list (x : string) (l : list string) : bool := existsb (String.eqb x) l.

Fixpoint general_pass (items : catalog) (message : string) : option string :=
  match items with
  | [] => None
  | (intent, data) :: rest =>
      if String.eqb intent "default" || in_list intent priority_intents
      then general_pass rest message
      else if general_hit message data then Some intent
      else general_pass rest message
  end.

Definition match_intent (responses : catalog) (message : string) : string :=
  let message := Text.strip (Text.lower message) in
  if Text.truthy (extract_name message) then "name_intro"
  else if Text.truthy (extract_order_number message) then "order_tracking"
  else
    let words := word_set message in
    match priority_pass responses priority_intents words with
    | Some intent => intent
    | None =>
        match general_pass responses message with
        | Some intent => intent
        | None =>
            if existsb (fun greeting => Text.contains greeting message) greeting_patterns
            then "greeting"
            else "default"
        end
    end.

(** ** Quick replies *)

Definition quick_replies_map : list (string * list string) :=
  [ ("greeting", ["Store hours"; "Return policy"; "Shipping info"; "Contact us"]);
    ("hours", ["Weekend hours"; "Holiday hours"; "Location hours"]);
    ("return", ["Start a return"; "Return policy"; "Exchange item"; "Refund status"]);
    ("shipping", ["Track my order"; "Shipping cost"; "Delivery time"; "Free shipping"]);
    ("payment", ["Credit card"; "PayPal"; "Installments"; "Gift card"]);
    ("contact", [SUPPORT_PHONE; "Email support"; "Live chat"; "Call me"]);
    ("thanks", ["You're welcome!"; "Any other questions?"; "Have a great day!"]);
    ("goodbye", ["Thanks for chatting!"; "Come back soon!"; "Rate your experience"]);
    ("default", ["Store hours"; "Return policy"; "Shipping info"; "Contact us"]) ].

Fixpoint table_get (t : list (string * list string)) (k : string) : option (list string) :=
  match t with
  | [] => None
  | (k', v) :: rest => if String.eqb k' k then Some v else table_get rest k
  end.

Definition get_quick_replies (intent : string) : list string :=
  match table_get quick_replies_map intent with
  | Some replies => replies
  | None => ["Store hours"; "Return policy"; "Shipping info"; "Contact us"]
  end.

(** ** Sessions and the world a request runs in *)

Inductive Role : Type := user | bot.

Definition role_name (r : Role) : string :=
  match r with user => "user" | bot => "bot" end.

(** One element of [session_data['messages']]. *)
Record LogEntry : Type := mkLogEntry {
  role : Role;
  message : string;
  timestamp : string
}.

(** One value of [conversations]. *)
Record Session : Type := mkSession {
  name : option string;
  message_count : nat;
  last_intent : option string;
  last_order : option string;
  messages : list LogEntry;
  created_at : string
}.

Definition set_name (v : option string) (s : Session) : Session :=
  mkSession v (message_count s) (last_intent s) (last_order s) (messages s) (created_at s).

Definition set_message_count (v : nat) (s : Session) : Session :=
  mkSession (name s) v (last_intent s) (last_order s) (messages s) (created_at s).

Definition set_last_intent (v : option string) (s : Session) : Session :=
  mkSession (name s) (message_count s) v (last_order s) (messages s) (created_at s).

Definition set_last_order (v : option string) (s : Session) : Session :=
  mkSession (name s) (message_count s) (last_intent s) v (messages s) (created_at s).

(** [session_data['messages'].append(e)] *)
Definition append_message (e : LogEntry) (s : Session) : Session :=
  mkSession (name s) (message_count s) (last_intent s) (last_order s)
    (messages s ++ [e]) (created_at s).

Definition new_session (created : string) : Session :=
  mkSession None 0 None None [] created.

Inductive Sentiment : Type := positive | neutral | negative.

Definition sentiment_name (s : Sentiment) : string :=
  match s with
  | positive => "positive"
  | neutral => "neutral"
  | negative => "negative"
  end.

(** The calls a handler makes into the dialogue engine, in order. *)
Inductive Call : Type :=
| CallAnalyzeSentiment (message : string)
| CallMatchIntent (message : string)
| CallGetPersonalizedResponse (intent : string) (message : string)
| CallGetQuickReplies (intent : string).

(** What the program reads from outside itself. *)
Record Env : Type := mkEnv {
  responses : catalog;
  (** [TextBlob(message).sentiment.polarity]; [None] when it raises *)
  polarity : string -> option Q;
  (** [datetime.now().isoformat()] at the n-th reading of the clock *)
  now_iso : nat -> string;
  (** the n-th draw of the generator, as [random.choice] uses it *)
  rand_index : nat -> nat;
  (** the n-th draw of the generator: [random.random() > 0.5] *)
  rand_gt_half : nat -> bool
}.

Record World : Type := mkWorld {
  conversations : gmap string Session;
  clock_reads : nat;
  draws : nat;
  calls : list Call
}.

Definition initial_world : World := mkWorld ∅ 0 0 [].

Inductive Exn : Type := KeyError | IndexError.

Inductive Outcome (A : Type) : Type :=
| Ok (a : A)
| Raise (e : Exn).

Arguments Ok {A} a.
Arguments Raise {A} e.

(** A computation: the outcome and the world it leaves. *)
Definition M (A : Type) : Type := World -> Outcome A * World.

Definition ret {A : Type} (a : A) : M A := fun w => (Ok a, w).

Definition bind {A B : Type} (m : M A) (f : A -> M B) : M B :=
  fun w =>
    match m w with
    | (Ok a, w') => f a w'
    | (Raise e, w') => (Raise e, w')
    end.

Definition raise {A : Type} (e : Exn) : M A := fun w => (Raise e, w).

Notation "'do' x <- m ; k" := (bind m (fun x => k))
  (at level 10, x name, m at level 100, k at level 200).
Notation "'do' ' pat <- m ; k" := (bind m (fun x => match x with pat => k end))
  (at level 10, pat pattern, m at level 100, k at level 200).
Notation "'run' m ; k" := (bind m (fun _ => k))
  (at level 10, m at level 100, k at level 200).

Definition get_conversations : M (gmap string Session) :=
  fun w => (Ok (conversations w), w).

Definition put_conversations (c : gmap string Session) : M unit :=
  fun w => (Ok tt, mkWorld c (clock_reads w) (draws w) (calls w)).

(** [conversations[session_id]] *)
Definition read_session (session_id : string) : M Session :=
  do c <- get_conversations;
  match c !! session_id with
  | Some s => ret s
  | None => raise KeyError
  end.

(** A mutation of the dictionary that [conversations[session_id]] is. *)
Definition update_session (session_id : string) (f : Session -> Session) : M unit :=
  do s <- read_session session_id;
  do c <- get_conversations;
  put_conversations (<[session_id := f s]> c).

(** [datetime.now().isoformat()] *)
Definition now (E : Env) : M string :=
  fun w =>
    (Ok (now_iso E (clock_reads w)),
     mkWorld (conversations w) (S (clock_reads w)) (draws w) (calls w)).

Definition next_draw : M nat :=
  fun w =>
    (Ok (draws w), mkWorld (conversations w) (clock_reads w) (S (draws w)) (calls w)).

(** [random.choice(seq)]: [IndexError] on an empty sequence. *)
Definition random_choice (E : Env) (seq : list string) : M string :=
  match seq with
  | [] => raise IndexError
  | x :: _ =>
      do n <- next_draw;
      ret (nth (rand_index E n mod length seq) seq x)
  end.

(** [random.random() > 0.5] *)
Definition random_gt_half (E : Env) : M bool :=
  do n <- next_draw;
  ret (rand_gt_half E n).

Definition record_call (c : Call) : M unit :=
  fun w =>
    (Ok tt, mkWorld (conversations w) (clock_reads w) (draws w) (calls w ++ [c])).

(** ** Sentiment *)

Definition analyze_sentiment_of (p : option Q) : Sentiment :=
  match p with
  | Some polarity =>
      if negb (Qle_bool polarity (3 # 10)) then positive
      else if negb (Qle_bool (- (3 # 10)) polarity) then negative
      else neutral
  | None => neutral
  end.

Definition analyze_sentiment (E : Env) (message : string) : M Sentiment :=
  run record_call (CallAnalyzeSentiment message);
  ret (analyze_sentiment_of (polarity E message)).

(** ** Response generator *)

(** [responses[intent]['responses']] *)
Definition lookup_responses (E : Env) (intent : string) : M (list string) :=
  match catalog_get (responses E) intent with
  | Some d =>
      match i_responses d with
      | Some pool => ret pool
      | None => raise KeyError
      end
  | None => raise KeyError
  end.

(** [response[0].lower() + response[1:]] *)
Definition lower_first (response : string) : M string :=
  match response with
  | String c rest => ret (String (Text.lower_char c) rest)
  | EmptyString => raise IndexError
  end.

(** The extractor's answer when [intent] is [tag] and the answer is true. *)
Definition extracted (tag intent : string) (found : option string) : option string :=
  if String.eqb intent tag then
    match found with
    | Some v => if Text.nonempty v then Some v else None
    | None => None
    end
  else None.

(** [session_data] is passed in and handed back: the caller stores the
    returned value where the dictionary it passed lives. *)
Definition get_personalized_response (E : Env) (intent : string)
    (session_data : Session) (user_message : string) : M (string * Session) :=
  match extracted "name_intro" intent (extract_name user_message) with
  | Some name =>
      ret ("Nice to meet you, " +:+ name +:+ "! 🎉 How can I help you today?",
           set_name (Some name) session_data)
  | None =>
      match extracted "order_tracking" intent (extract_order_number user_message) with
      | Some order_number =>
          ret ("Let me check order #" +:+ order_number +:+
               " for you... 📦 It's currently being processed and will ship within 2 business days.",
               set_last_order (Some order_number) session_data)
      | None =>
          do pool <-
            (if negb (String.eqb intent "default") && catalog_mem (responses E) intent
             then lookup_responses E intent
             else lookup_responses E "default");
          do response <- random_choice E pool;
          match name session_data with
          | Some known =>
              if Text.nonempty known then
                do gt <- random_gt_half E;
                if gt then
                  do rest <- lower_first response;
                  ret (known +:+ ", " +:+ rest, session_data)
                else ret (response, session_data)
              else ret (response, session_data)
          | None => ret (response, session_data)
          end
      end
  end.

(** ** Request handlers *)

Local Unset Elimination Schemes.

Inductive json : Type :=
| JNull
| JString (s : string)
| JNumber (n : nat)
| JArray (items : list json)
| JObject (fields : list (string * json)).

Local Set Elimination Schemes.

Definition json_strings (l : list string) : json := JArray (map JString l).

Definition json_optional (o : option string) : json :=
  match o with Some s => JString s | None => JNull end.

Definition json_entry (e : LogEntry) : json :=
  JObject [("role", JString (role_name (role e)));
           ("message", JString (message e));
           ("timestamp", JString (timestamp e))].

(** [key in obj] for a response body *)
Definition has_field (key : string) (body : json) : bool :=
  match body with
  | JObject fields => existsb (fun kv => String.eqb (fst kv) key) fields
  | _ => false
  end.

(** [obj.get(key)] for a response body *)
Definition field (key : string) (body : json) : option json :=
  match body with
  | JObject fields =>
      match List.find (fun kv => String.eqb (fst kv) key) fields with
      | Some kv => Some (snd kv)
      | None => None
      end
  | _ => None
  end.

Definition escalation_text : string :=
  "I notice you seem frustrated. Would you like me to connect you with a human agent? 🤝".

Definition escalation_replies : list string := ["Yes please"; "No thanks"; "Continue chat"].

Definition is_negative (s : Sentiment) : bool :=
  match s with negative => true | _ => false end.

(** [POST /chat] with body [{message: user_message, session_id: session_id}] *)
Definition chat (E : Env) (user_message session_id : string) : M json :=
  do c <- get_conversations;
  run (match c !! session_id with
       | Some _ => ret tt
       | None =>
           do created <- now E;
           put_conversations (<[session_id := new_session created]> c)
       end);
  run update_session session_id (fun s => set_message_count (message_count s + 1) s);
  do stamp <- now E;
  run update_session session_id (append_message (mkLogEntry user user_message stamp));
  do sentiment <- analyze_sentiment E user_message;
  do session_data <- read_session session_id;
  if is_negative sentiment && (3 <? message_count session_data)%nat then
    ret (JObject [("response", JString escalation_text);
                  ("sentiment", JString (sentiment_name sentiment));
                  ("quick_replies", json_strings escalation_replies);
                  ("session_id", JString session_id)])
  else
    run record_call (CallMatchIntent user_message);
    let intent := match_intent (responses E) user_message in
    run update_session session_id (set_last_intent (Some intent));
    do session_data <- read_session session_id;
    run record_call (CallGetPersonalizedResponse intent user_message);
    do '(response, session_data') <-
      get_personalized_response E intent session_data user_message;
    run update_session session_id (fun _ => session_data');
    do stamp <- now E;
    run update_session session_id (append_message (mkLogEntry bot response stamp));
    run record_call (CallGetQuickReplies intent);
    let quick_replies := get_quick_replies intent in
    do session_data <- read_session session_id;
    ret (JObject [("response", JString response);
                  ("intent", JString intent);
                  ("sentiment", JString (sentiment_name sentiment));
                  ("quick_replies", json_strings quick_replies);
                  ("name", json_optional (name session_data));
                  ("session_id", JString session_id)]).

(** [GET /history/<session_id>] *)
Definition get_history (session_id : string) : M json :=
  do c <- get_conversations;
  match c !! session_id with
  | Some s =>
      ret (JObject [("history", JArray (map json_entry (messages s)));
                    ("session_data",
                     JObject [("name", json_optional (name s));
                              ("message_count", JNumber (message_count s));
                              ("created_at", JString (created_at s))])])
  | None => ret (JObject [("history", JArray []); ("session_data", JObject [])])
  end.

(** [GET /clear/<session_id>] *)
Definition clear_session (session_id : string) : M json :=
  do c <- get_conversations;
  run (match c !! session_id with
       | Some _ => put_conversations (delete session_id c)
       | None => ret tt
       end);
  ret (JObject [("status", JString "cleared")]).

(** The requests the session store serves. *)
Inductive Request : Type :=
| ReqChat (user_message session_id : string)
| ReqHistory (session_id : string)
| ReqClear (session_id : string).

Definition handle (E : Env) (r : Request) : M json :=
  match r with
  | ReqChat user_message session_id => chat E user_message session_id
  | ReqHistory session_id => get_history session_id
  | ReqClear session_id => clear_session session_id
  end.

(** The world after serving the requests in order, whatever their outcomes. *)
Fixpoint serve (E : Env) (rs : list Request) (w : World) : World :=
  match rs with
  | [] => w
  | r :: rest => serve E rest (snd (handle E r w))
  end.

(** [sum(1 for e in log if e['role'] == 'user')] *)
Fixpoint user_entries (log : list LogEntry) : nat :=
  match log with
  | [] => 0
  | e :: rest =>
      match role e with
      | user => S (user_entries rest)
      | bot => user_entries rest
      end
  end.

(** ** Notions the statements use *)

(** The value of [session_data['message_count']] that [chat] tests, that
    is, after the increment: a session created by the turn starts at 0. *)
Definition counter_after_increment (w : World) (session_id : string) : nat :=
  match conversations w !! session_id with
  | Some s => message_count s + 1
  | None => 0 + 1
  end.

(** The label [analyze_sentiment] computes for a message. *)
Definition sentiment_label (E : Env) (message : string) : string :=
  sentiment_name (analyze_sentiment_of (polarity E message)).

(** The session a turn works on: the stored one, or the one it creates. *)
Definition entry_session (E : Env) (w : World) (session_id : string) : Session :=
  match conversations w !! session_id with
  | Some s => s
  | None => new_session (now_iso E (clock_reads w))
  end.

(** The number of clock readings before the user entry is stamped. *)
Definition entry_clock (w : World) (session_id : string) : nat :=
  match conversations w !! session_id with
  | Some _ => clock_reads w
  | None => S (clock_reads w)
  end.

(** The session once the inbound message is counted and logged. *)
Definition counted_session (E : Env) (w : World) (user_message session_id : string)
    : Session :=
  let s := entry_session E w session_id in
  append_message
    (mkLogEntry user user_message (now_iso E (entry_clock w session_id)))
    (set_message_count (message_count s + 1) s).

(** The world when [chat] reaches its test on the sentiment. *)
Definition counted_world (E : Env) (w : World) (user_message session_id : string)
    : World :=
  mkWorld
    (<[session_id := counted_session E w user_message session_id]> (conversations w))
    (S (entry_clock w session_id)) (draws w)
    (calls w ++ [CallAnalyzeSentiment user_message]).

(** The body the escalation branch returns. *)
Definition escalation_body (sentiment : Sentiment) (session_id : string) : json :=
  JObject [("response", JString escalation_text);
           ("sentiment", JString (sentiment_name sentiment));
           ("quick_replies", json_strings escalation_replies);
           ("session_id", JString session_id)].

(** The rest of [chat] when the turn does not escalate, as [chat] has it. *)
Definition reply (E : Env) (user_message session_id : string) (sentiment : Sentiment)
    : M json :=
  run record_call (CallMatchIntent user_message);
  let intent := match_intent (responses E) user_message in
  run update_session session_id (set_last_intent (Some intent));
  do session_data <- read_session session_id;
  run record_call (CallGetPersonalizedResponse intent user_message);
  do '(response, session_data') <-
    get_personalized_response E intent session_data user_message;
  run update_session session_id (fun _ => session_data');
  do stamp <- now E;
  run update_session session_id (append_message (mkLogEntry bot response stamp));
  run record_call (CallGetQuickReplies intent);
  let quick_replies := get_quick_replies intent in
  do session_data <- read_session session_id;
  ret (JObject [("response", JString response);
                ("intent", JString intent);
                ("sentiment", JString (sentiment_name sentiment));
                ("quick_replies", json_strings quick_replies);
                ("name", json_optional (name session_data));
                ("session_id", JString session_id)]).

(** The invariant of the session store. *)
Definition counter_matches_log (s : Session) : Prop :=
  message_count s = user_entries (messages s).

Definition store_consistent (w : World) : Prop :=
  forall (session_id : string) (s : Session),
    conversations w !! session_id = Some s -> counter_matches_log s.

(** [m] does not touch the session store, whatever its outcome. *)
Definition keeps_store {A : Type} (m : M A) : Prop :=
  forall w : World, conversations (snd (m w)) = conversations w.

(** Every value [m] returns satisfies [Q]. *)
Definition returns {A : Type} (Q : A -> Prop) (m : M A) : Prop :=
  forall (w w' : World) (a : A), m w = (Ok a, w') -> Q a.

(** The session the generator hands back differs from the one it was given
    in [name] or in [last_order] at most. *)
Definition same_but_entities (s s' : Session) : Prop :=
  message_count s' = message_count s /\ messages s' = messages s /\
  last_intent s' = last_intent s /\ created_at s' = created_at s.

(** The four fields every response body of [chat] carries. *)
Definition has_base_fields (body : json) : bool :=
  has_field "response" body && has_field "sentiment" body &&
  has_field "quick_replies" body && has_field "session_id" body.

(** The test of the escalation branch, on the world a turn starts in. *)
Definition escalates (E : Env) (w : World) (user_message session_id : string) : bool :=
  is_negative (analyze_sentiment_of (polarity E user_message)) &&
  (3 <? counter_after_increment w session_id)%nat.

(** ** Notions for the text lemmas *)

Fixpoint all_space (s : string) : bool :=
  match s with
  | EmptyString => true
  | String c s' => Text.is_space c && all_space s'
  end.

(** The longest prefix of [s] in the class, and what follows it. *)
Fixpoint span (cl : cclass) (s : string) : string :=
  match s with
  | String c s' => if in_class cl c then String c (span cl s') else EmptyString
  | EmptyString => EmptyString
  end.

Fixpoint after_span (cl : cclass) (s : string) : string :=
  match s with
  | String c s' => if in_class cl c then after_span cl s' else s
  | EmptyString => EmptyString
  end.

(** A matcher from a position: what the rest of a pattern is to the part
    before it. *)
Definition kont : Type := option ascii -> string -> option captures.

(** The matcher of a pattern's closing group [(k{n,})]. *)
Definition group_end (n : nat) (cl : cclass) : kont :=
  fun p s =>
    at_least n cl p s
      (fun _ s' => Some (Some (Text.take (String.length s - String.length s') s))).

(** [k] does not see blanks at the end of the text, nor the character
    before the position, and finds nothing in a blank text. *)
Definition trim_stable (k : kont) : Prop :=
  (forall p p' s, k p (Text.rstrip s) = k p' s) /\
  (forall p s, all_space s = true -> k p s = None).

(** [k] does not see the case of the text. *)
Definition lower_stable (k : kont) : Prop :=
  forall p p' s, k p (Text.lower s) = k p' s.

(** [k] finds nothing at a blank. *)
Definition lead_fail (k : kont) : Prop :=
  forall p c s, Text.is_space c = true -> k p (String c s) = None.

(** Every match [k] reports satisfies [Q]. *)
Definition yields (Q : captures -> Prop) (k : kont) : Prop :=
  forall p s m, k p s = Some m -> Q m.

(** A group of at least [n] characters of the class. *)
Definition run_of (n : nat) (cl : cclass) (m : captures) : Prop :=
  exists d : string,
    m = Some d /\ n <= String.length d /\ span cl d = d.

(** [re.search] gives the same answer on the stripped text. *)
Definition strip_invariant (ic : bool) (r : regex) : Prop :=
  trim_stable (match_here ic r) /\ lead_fail (match_here ic r).

(** The class has no blank in it. *)
Definition no_space (cl : cclass) : Prop :=
  forall c, in_class cl c = true -> Text.is_space c = false.

(** The three shapes of the patterns of the extractors. *)

(** [l(k{n,})]: the five name patterns and [#(\d{5,})]. *)
Definition shape_literal_group (l : string) (n : nat) (cl : cclass) : regex :=
  Seq (Lit l) (Group (AtLeast n cl)).

(** [l\s*#?\s*(\d{5,})]: the [order] and [tracking] patterns. *)
Definition shape_reference (l : string) : regex :=
  Seq (Lit l) (Seq (Star Space) (Seq (Opt (Lit "#"))
    (Seq (Star Space) (Group (AtLeast 5 Digit))))).

(** [ORD[-]?(\d{5,})] *)
Definition shape_ord : regex :=
  Seq (Lit "ORD") (Seq (Opt (Lit "-")) (Group (AtLeast 5 Digit))).

(** The answer of the first pattern, in order, that [re.search] finds in
    the text. *)
Fixpoint first_match (ic : bool) (patterns : list regex) (s : string)
    : option captures :=
  match patterns with
  | [] => None
  | r :: rest =>
      match search ic r s with
      | Some m => Some m
      | None => first_match ic rest s
      end
  end.

(** Some pattern of the list is found in the text. *)
Definition some_pattern_matches (ic : bool) (patterns : list regex) (s : string)
    : Prop :=
  exists r : regex, In r patterns /\ search ic r s <> None.

(** The intent names [match_intent] can answer with a given catalog. *)
Definition named_intents (responses : catalog) : list string :=
  ["name_intro"; "order_tracking"; "greeting"; "default"] ++ map fst responses.

(** What the configuration loader owes the generator: an entry has a
    [responses] list with a template in it, and no template is empty. *)
Definition entry_ok (d : IntentData) : bool :=
  match i_responses d with
  | Some (t :: pool) => forallb Text.nonempty (t :: pool)
  | _ => false
  end.

(** ... and the catalog has a [default] entry. *)
Definition catalog_ok (responses : catalog) : bool :=
  catalog_mem responses "default" && forallb (fun kv => entry_ok (snd kv)) responses.

(** [response] is a template of [pool], as it is or behind the name the
    session knows and with its first letter in lower case. *)
Definition drawn_from (pool : list string) (session_data : Session)
    (response : string) : Prop :=
  exists (c : ascii) (rest : string),
    In (String c rest) pool /\
    (response = String c rest \/
     exists known : string,
       name session_data = Some known /\
       response = known +:+ ", " +:+ String (Text.lower_char c) rest).

(** [response] comes from the pool of [intent] when the catalog has that
    intent and it is not [default], and from the pool of [default]
    otherwise. *)
Definition catalog_response (E : Env) (intent : string) (session_data : Session)
    (response : string) : Prop :=
  exists (d : IntentData) (pool : list string),
    catalog_get (responses E)
      (if negb (String.eqb intent "default") && catalog_mem (responses E) intent
       then intent else "default") = Some d /\
    i_responses d = Some pool /\
    drawn_from pool session_data response.

(** The value a computation returned, if it returned. *)
Definition fst_ok {A : Type} (r : Outcome A * World) : option A :=
  match fst r with Ok a => Some a | Raise _ => None end.

(** Every trigger pattern of the catalog has a word in it. *)
Definition patterns_have_words (responses : catalog) : Prop :=
  Forall
    (fun kv => Forall (fun pattern => Text.split pattern <> []) (patterns_of (snd kv)))
    responses.

(** ** A concrete conversation *)

(** The built-in catalog, a scorer that dislikes one message, a fixed
    clock and a generator that always draws the first element. *)
Definition demo_env : Env :=
  mkEnv fallback_catalog
    (fun m => if String.eqb m "terrible service" then Some (- (1 # 1))%Q else Some 0%Q)
    (fun _ => "2024-05-01T10:00:00")
    (fun _ => 0)
    (fun _ => false).

(** Three turns on session [s1]. *)
Definition demo_world : World :=
  serve demo_env
    [ReqChat "hello" "s1"; ReqChat "my name is Sam" "s1"; ReqChat "track order #123456" "s1"]
    initial_world.

(** Seven requests on two sessions: replies, a clear of an absent
    session, and two escalations at the end. *)
Definition demo_requests : list Request :=
  [ReqChat "hello" "s1"; ReqChat "terrible service" "s1"; ReqClear "s2";
   ReqChat "hi" "s2"; ReqChat "terrible service" "s1";
   ReqChat "terrible service" "s1"; ReqChat "terrible service" "s1"].

(** ** Tactics *)

(** A fact about one character, checked on each of the 256. *)
Ltac by_cases_on c :=
  destruct c as [[] [] [] [] [] [] [] []]; try reflexivity; try discriminate.

(** ** Notions for the further properties *)

(** The session a request names. *)
Definition request_id (r : Request) : string :=
  match r with
  | ReqChat _ session_id => session_id
  | ReqHistory session_id => session_id
  | ReqClear session_id => session_id
  end.

(** One chat request per message, all on the same session. *)
Definition chat_requests (session_id : string) (msgs : list string) : list Request :=
  map (fun m => ReqChat m session_id) msgs.

(** The world in which [chat] calls the generator on a turn that replies:
    the intent is stored and the two calls are logged. *)
Definition generator_world (E : Env) (w : World) (user_message session_id : string)
    (s : Session) : World :=
  mkWorld
    (<[session_id :=
         set_last_intent (Some (match_intent (responses E) user_message)) s]>
       (conversations w))
    (clock_reads w) (draws w)
    ((calls w ++ [CallMatchIntent user_message]) ++
     [CallGetPersonalizedResponse (match_intent (responses E) user_message)
        user_message]).

(** The body [chat] returns on a turn that replies. *)
Definition reply_body (E : Env) (user_message session_id response : string)
    (known : option string) : json :=
  JObject [("response", JString response);
           ("intent", JString (match_intent (responses E) user_message));
           ("sentiment", JString (sentiment_label E user_message));
           ("quick_replies",
            json_strings (get_quick_replies (match_intent (responses E) user_message)));
           ("name", json_optional known);
           ("session_id", JString session_id)].

(** All characters of [s] are word characters. *)
Definition all_word (s : string) : Prop := span Word s = s.

(** All characters of [s] are digits. *)
Definition all_digits (s : string) : Prop := span Digit s = s.

(** [m] does not read the clock, whatever its outcome. *)
Definition keeps_clock {A : Type} (m : M A) : Prop :=
  forall w : World, clock_reads (snd (m w)) = clock_reads w.

(** Every group [k] reports occurs in the text it was given. *)
Definition occurs (k : kont) : Prop :=
  forall p s d, k p s = Some (Some d) -> Text.contains d s = true.

(** The message as [match_intent] reads it. *)
Definition normal (message : string) : string := Text.strip (Text.lower message).

(** The greeting the generator builds on a name. *)
Definition name_greeting (n : string) : string :=
  "Nice to meet you, " +:+ n +:+ "! 🎉 How can I help you today?".

(** The status line the generator builds on an order number. *)
Definition order_status (d : string) : string :=
  "Let me check order #" +:+ d +:+
  " for you... 📦 It's currently being processed and will ship within 2 business days.".

(** Why [match_intent] answers [intent] on a message: the rule that fired,
    with what it found. *)
Definition intent_reason (responses : catalog) (message intent : string) : Prop :=
  (intent = "name_intro" /\ exists n, extract_name message = Some n) \/
  (intent = "order_tracking" /\ extract_name message = None /\
   exists d, extract_order_number message = Some d) \/
  (In intent priority_intents /\
   exists d pattern,
     catalog_get responses intent = Some d /\ In pattern (patterns_of d) /\
     word_set pattern ⊆ word_set (normal message)) \/
  (in_list intent priority_intents = false /\ intent <> "default" /\
   exists d pattern,
     In (intent, d) responses /\ In pattern (patterns_of d) /\
     Text.contains pattern (normal message) = true) \/
  (intent = "greeting" /\
   exists greeting,
     In greeting greeting_patterns /\ Text.contains greeting (normal message) = true) \/
  (intent = "default" /\ extract_name message = None /\
   extract_order_number message = None /\
   forall greeting,
     In greeting greeting_patterns -> Text.contains greeting (normal message) = false).

(** ** The texts and the requests the model speaks for *)

(** The text is ASCII: every character is below 128.  On such a text the
    functions of [Text] and the classes of [Re] are Python's; a statement
    that depends on them carries this hypothesis. *)
Fixpoint ascii_text (s : string) : bool :=
  match s with
  | EmptyString => true
  | String c s' => (nat_of_ascii c <? 128)%nat && ascii_text s'
  end.

(** [data.get(key, default)] on the parsed body of a request: when the
    key occurs more than once, the JSON parser kept the last value. *)
Fixpoint body_get (fields : list (string * json)) (key : string) (default : json)
    : json :=
  match fields with
  | [] => default
  | (k, v) :: rest =>
      if String.eqb k key then body_get rest key v else body_get rest key default
  end.

(** The value is a JSON string. *)
Definition is_text (j : json) : bool :=
  match j with JString _ => true | _ => false end.

(** [chat()] from [request.json]: [user_message = data.get('message', '')]
    and [session_id = data.get('session_id', 'default')], then the turn.
    [None] stands for the bodies the model has no turn for: a body that is
    not an object, a message or a session id that is not a string. *)
Definition chat_route (E : Env) (data : json) : option (M json) :=
  match data with
  | JObject fields =>
      match
        body_get fields "message" (JString ""),
        body_get fields "session_id" (JString "default")
      with
      | JString user_message, JString session_id =>
          Some (chat E user_message session_id)
      | _, _ => None
      end
  | _ => None
  end.

(** The rule of [match_intent] that answers [intent] on a message, with
    what the rule found and what the rules before it did not find. *)
Definition intent_rule (responses : catalog) (message intent : string) : Prop :=
  (intent = "name_intro" /\ exists n, extract_name message = Some n) \/
  (intent = "order_tracking" /\ extract_name message = None /\
   exists d, extract_order_number message = Some d) \/
  (extract_name message = None /\ extract_order_number message = None /\
   ((In intent priority_intents /\
     exists d pattern,
       catalog_get responses intent = Some d /\ In pattern (patterns_of d) /\
       word_set pattern ⊆ word_set (normal message)) \/
    (priority_pass responses priority_intents (word_set (normal message)) = None /\
     ((in_list intent priority_intents = false /\ intent <> "default" /\
       exists d pattern,
         In (intent, d) responses /\ In pattern (patterns_of d) /\
         Text.contains pattern (normal message) = true) \/
      (general_pass responses (normal message) = None /\
       ((intent = "greeting" /\
         exists greeting,
           In greeting greeting_patterns /\
           Text.contains greeting (normal message) = true) \/
        (intent = "default" /\
         forall greeting,
           In greeting greeting_patterns ->
           Text.contains greeting (normal message) = false))))))).

(** * Proofs *)

(** ** Characters *)

Lemma lower_char_idem (c : ascii) :
  Text.lower_char (Text.lower_char c) = Text.lower_char c.
Proof. by_cases_on c. Qed.

Lemma is_space_lower_char (c : ascii) :
  Text.is_space (Text.lower_char c) = Text.is_space c.
Proof. by_cases_on c. Qed.

Lemma in_class_lower_char (cl : cclass) (c : ascii) :
  in_class cl (Text.lower_char c) = in_class cl c.
Proof. destruct cl; by_cases_on c. Qed.

Lemma digit_lower_char (c : ascii) :
  Text.is_digit c = true -> Text.lower_char c = c.
Proof. by_cases_on c. Qed.

Lemma space_lower_char (c : ascii) :
  Text.is_space c = true -> Text.lower_char c = c.
Proof. by_cases_on c. Qed.

Lemma word_no_space : no_space Word.
Proof. intros c. simpl. by_cases_on c. Qed.

Lemma digit_no_space : no_space Digit.
Proof. intros c. simpl. by_cases_on c. Qed.

Lemma char_eq_lower (a c : ascii) :
  char_eq true a (Text.lower_char c) = char_eq true a c.
Proof. unfold char_eq. rewrite lower_char_idem. reflexivity. Qed.

Lemma char_eq_space (ic : bool) (a c : ascii) :
  Text.is_space a = false -> Text.is_space c = true -> char_eq ic a c = false.
Proof.
  intros Ha Hc. unfold char_eq. destruct ic.
  - rewrite (space_lower_char c Hc). apply Ascii.eqb_neq. intros Heq.
    rewrite <- is_space_lower_char, Heq in Ha. congruence.
  - apply Ascii.eqb_neq. intros ->. congruence.
Qed.

(** ** [lower], [lstrip], [rstrip] *)

Lemma lower_idem (s : string) : Text.lower (Text.lower s) = Text.lower s.
Proof.
  induction s as [|c s IH]; simpl; [reflexivity|].
  rewrite lower_char_idem, IH. reflexivity.
Qed.

Lemma length_lower (s : string) : String.length (Text.lower s) = String.length s.
Proof. induction s as [|c s IH]; simpl; [reflexivity|]. rewrite IH. reflexivity. Qed.

Lemma all_space_lower (s : string) : all_space (Text.lower s) = all_space s.
Proof.
  induction s as [|c s IH]; simpl; [reflexivity|].
  rewrite is_space_lower_char, IH. reflexivity.
Qed.

Lemma rstrip_empty (s : string) :
  Text.rstrip s = EmptyString <-> all_space s = true.
Proof.
  induction s as [|c s IH]; simpl; [tauto|].
  destruct (Text.rstrip s) as [|x r].
  - destruct (Text.is_space c); simpl.
    + tauto.
    + split; discriminate.
  - split; [discriminate|]. intros H. apply andb_true_iff in H as [_ H].
    apply IH in H. discriminate.
Qed.

Lemma rstrip_cons (c : ascii) (s : string) :
  Text.rstrip (String c s) =
    if Text.is_space c && all_space s then EmptyString
    else String c (Text.rstrip s).
Proof.
  simpl. destruct (all_space s) eqn:Hall.
  - apply rstrip_empty in Hall. rewrite Hall.
    destruct (Text.is_space c); reflexivity.
  - rewrite andb_false_r.
    destruct (Text.rstrip s) eqn:Hr; [|reflexivity].
    apply rstrip_empty in Hr. congruence.
Qed.

Lemma lower_lstrip (s : string) : Text.lower (Text.lstrip s) = Text.lstrip (Text.lower s).
Proof.
  induction s as [|c s IH]; simpl; [reflexivity|].
  rewrite is_space_lower_char. destruct (Text.is_space c); [exact IH|reflexivity].
Qed.

Lemma lower_rstrip (s : string) : Text.lower (Text.rstrip s) = Text.rstrip (Text.lower s).
Proof.
  induction s as [|c s IH]; [reflexivity|].
  change (Text.lower (String c s)) with (String (Text.lower_char c) (Text.lower s)).
  rewrite !rstrip_cons, is_space_lower_char, all_space_lower.
  destruct (Text.is_space c && all_space s); [reflexivity|].
  simpl. rewrite IH. reflexivity.
Qed.

Lemma lower_strip (s : string) : Text.lower (Text.strip s) = Text.strip (Text.lower s).
Proof. unfold Text.strip. rewrite lower_lstrip, lower_rstrip. reflexivity. Qed.

(** The text [match_intent] hands to the extractors is already in lower
    case. *)
Lemma lower_strip_lower (s : string) :
  Text.lower (Text.strip (Text.lower s)) = Text.strip (Text.lower s).
Proof. rewrite lower_strip, lower_idem. reflexivity. Qed.

(** ** The matcher on blank-padded text *)

Lemma trim_stable_prev (k : kont) (p p' : option ascii) (s : string) :
  trim_stable k -> k p s = k p' s.
Proof.
  intros [H _]. rewrite <- (H p p' s). symmetry. apply H.
Qed.

Lemma trim_stable_lit (ic : bool) (l : string) (k : kont) :
  trim_stable k -> trim_stable (fun p s => lit ic l p s k).
Proof.
  intros Hk. induction l as [|a l [IH1 IH2]]; [destruct Hk; split; assumption|].
  split.
  - intros p p' s. destruct s as [|c s]; [reflexivity|].
    rewrite rstrip_cons. destruct (Text.is_space c && all_space s) eqn:Hblank; simpl.
    + apply andb_true_iff in Hblank as [_ Hall].
      destruct (char_eq ic a c); [|reflexivity].
      symmetry. apply IH2. exact Hall.
    + destruct (char_eq ic a c); [|reflexivity]. apply IH1.
  - intros p s Hall. destruct s as [|c s]; [reflexivity|]. simpl.
    simpl in Hall. apply andb_true_iff in Hall as [_ Hall].
    destruct (char_eq ic a c); [|reflexivity]. apply IH2. exact Hall.
Qed.

Lemma star_blank (cl : cclass) (k : kont) (p : option ascii) (s : string) :
  trim_stable k -> all_space s = true -> star cl p s k = None.
Proof.
  intros [_ Hk]. revert p. induction s as [|c s IH]; intros p Hall; simpl.
  - apply Hk. reflexivity.
  - pose proof Hall as Hall'. simpl in Hall'.
    apply andb_true_iff in Hall' as [_ Hall'].
    rewrite (IH _ Hall'). rewrite (Hk p _ Hall).
    destruct (in_class cl c); reflexivity.
Qed.

Lemma trim_stable_star (cl : cclass) (k : kont) :
  trim_stable k -> trim_stable (fun p s => star cl p s k).
Proof.
  intros Hk. split; [|intros p s; apply star_blank; exact Hk].
  intros p p' s. revert p p'. induction s as [|c s IH]; intros p p'.
  - simpl. apply trim_stable_prev. exact Hk.
  - destruct (Text.is_space c && all_space s) eqn:Hblank.
    + assert (Hall : all_space (String c s) = true) by exact Hblank.
      rewrite (proj2 (rstrip_empty _) Hall).
      rewrite (star_blank cl k p' _ Hk Hall). simpl.
      apply Hk. reflexivity.
    + assert (Hr : Text.rstrip (String c s) = String c (Text.rstrip s))
        by (rewrite rstrip_cons, Hblank; reflexivity).
      destruct Hk as [Hk1 Hk2].
      pose proof (Hk1 p p' (String c s)) as Hhere. rewrite Hr in Hhere.
      rewrite Hr. simpl. rewrite Hhere, (IH (Some c) (Some c)). reflexivity.
Qed.

Lemma trim_stable_at_least (n : nat) (cl : cclass) (k : kont) :
  trim_stable k -> trim_stable (fun p s => at_least n cl p s k).
Proof.
  intros Hk. induction n as [|n [IH1 IH2]]; [apply trim_stable_star; exact Hk|].
  split.
  - intros p p' s. destruct s as [|c s]; [reflexivity|].
    rewrite rstrip_cons. destruct (Text.is_space c && all_space s) eqn:Hblank; simpl.
    + apply andb_true_iff in Hblank as [_ Hall].
      destruct (in_class cl c); [|reflexivity].
      symmetry. apply IH2. exact Hall.
    + destruct (in_class cl c); [|reflexivity]. apply IH1.
  - intros p s Hall. destruct s as [|c s]; [reflexivity|]. simpl.
    simpl in Hall. apply andb_true_iff in Hall as [_ Hall].
    destruct (in_class cl c); [|reflexivity]. apply IH2. exact Hall.
Qed.

Lemma trim_stable_orelse (k1 k2 : kont) :
  trim_stable k1 -> trim_stable k2 ->
  trim_stable
    (fun p s => match k1 p s with Some m => Some m | None => k2 p s end).
Proof.
  intros [H1 H1'] [H2 H2']. split.
  - intros p p' s. rewrite (H1 p p' s), (H2 p p' s). reflexivity.
  - intros p s Hall. rewrite (H1' p s Hall). apply H2'. exact Hall.
Qed.

(** ** The closing group *)

Lemma star_accept (cl : cclass) (F : string -> captures) (p : option ascii) (s : string) :
  star cl p s (fun _ s' => Some (F s')) = Some (F (after_span cl s)).
Proof.
  revert p. induction s as [|c s IH]; intros p; simpl; [reflexivity|].
  destruct (in_class cl c); [|reflexivity]. rewrite IH. reflexivity.
Qed.

Lemma at_least_accept (n : nat) (cl : cclass) (F : string -> captures)
    (p : option ascii) (s : string) :
  at_least n cl p s (fun _ s' => Some (F s')) =
    if (n <=? String.length (span cl s))%nat then Some (F (after_span cl s)) else None.
Proof.
  revert p s. induction n as [|n IH]; intros p s.
  - simpl. apply star_accept.
  - destruct s as [|c s]; simpl; [reflexivity|].
    destruct (in_class cl c); simpl; [|reflexivity]. apply IH.
Qed.

Lemma take_span (cl : cclass) (s : string) :
  Text.take (String.length s - String.length (after_span cl s)) s = span cl s.
Proof.
  induction s as [|c s IH]; simpl; [reflexivity|].
  destruct (in_class cl c).
  - assert (Hle : String.length (after_span cl s) <= String.length s).
    { clear. induction s as [|c s IH]; simpl; [lia|].
      destruct (in_class cl c); simpl; lia. }
    replace (S (String.length s) - String.length (after_span cl s))
      with (S (String.length s - String.length (after_span cl s))) by lia.
    simpl. rewrite IH. reflexivity.
  - simpl. rewrite Nat.sub_diag. reflexivity.
Qed.

(** The closing group takes the longest run of its class, when that run
    is long enough. *)
Lemma group_end_span (n : nat) (cl : cclass) (p : option ascii) (s : string) :
  group_end n cl p s =
    if (n <=? String.length (span cl s))%nat then Some (Some (span cl s)) else None.
Proof.
  unfold group_end.
  rewrite (at_least_accept n cl
             (fun s' => Some (Text.take (String.length s - String.length s') s))).
  rewrite take_span. reflexivity.
Qed.

Lemma span_rstrip (cl : cclass) (s : string) :
  no_space cl -> span cl (Text.rstrip s) = span cl s.
Proof.
  intros Hcl. induction s as [|c s IH]; [reflexivity|].
  rewrite rstrip_cons. destruct (Text.is_space c && all_space s) eqn:Hblank; simpl.
  - apply andb_true_iff in Hblank as [Hc _].
    destruct (in_class cl c) eqn:Hin; [|reflexivity].
    apply Hcl in Hin. congruence.
  - rewrite IH. reflexivity.
Qed.

Lemma span_blank (cl : cclass) (s : string) :
  no_space cl -> all_space s = true -> span cl s = EmptyString.
Proof.
  intros Hcl Hall. destruct s as [|c s]; [reflexivity|]. simpl.
  simpl in Hall. apply andb_true_iff in Hall as [Hc _].
  destruct (in_class cl c) eqn:Hin; [|reflexivity].
  apply Hcl in Hin. congruence.
Qed.

Lemma trim_stable_group_end (n : nat) (cl : cclass) :
  no_space cl -> 1 <= n -> trim_stable (group_end n cl).
Proof.
  intros Hcl Hn. split.
  - intros p p' s. rewrite !group_end_span, span_rstrip by exact Hcl. reflexivity.
  - intros p s Hall. rewrite group_end_span, span_blank by assumption.
    simpl. destruct n; [lia|reflexivity].
Qed.

Lemma span_span (cl : cclass) (s : string) : span cl (span cl s) = span cl s.
Proof.
  induction s as [|c s IH]; simpl; [reflexivity|].
  destruct (in_class cl c) eqn:Hin; simpl; [|reflexivity].
  rewrite Hin, IH. reflexivity.
Qed.

Lemma yields_group_end (n : nat) (cl : cclass) : yields (run_of n cl) (group_end n cl).
Proof.
  intros p s m. rewrite group_end_span.
  destruct (n <=? String.length (span cl s))%nat eqn:Hn; [|discriminate].
  intros [= <-]. exists (span cl s). split; [reflexivity|].
  split; [apply Nat.leb_le; exact Hn | apply span_span].
Qed.

(** ** The matcher on lower-cased text, when it ignores case *)

Lemma lower_stable_lit (l : string) (k : kont) :
  lower_stable k -> lower_stable (fun p s => lit true l p s k).
Proof.
  intros Hk. induction l as [|a l IH]; [exact Hk|].
  intros p p' s. destruct s as [|c s]; [reflexivity|]. cbn [lit Text.lower].
  rewrite char_eq_lower. destruct (char_eq true a c); [|reflexivity]. apply IH.
Qed.

Lemma lower_stable_star (cl : cclass) (k : kont) :
  lower_stable k -> lower_stable (fun p s => star cl p s k).
Proof.
  intros Hk p p' s. revert p p'. induction s as [|c s IH]; intros p p'.
  - simpl. apply (Hk p p' EmptyString).
  - pose proof (Hk p p' (String c s)) as Hhere. simpl in Hhere. simpl.
    rewrite in_class_lower_char, Hhere, (IH (Some (Text.lower_char c)) (Some c)).
    reflexivity.
Qed.

Lemma lower_stable_orelse (k1 k2 : kont) :
  lower_stable k1 -> lower_stable k2 ->
  lower_stable
    (fun p s => match k1 p s with Some m => Some m | None => k2 p s end).
Proof.
  intros H1 H2 p p' s. rewrite (H1 p p' s), (H2 p p' s). reflexivity.
Qed.

Lemma span_digit_lower (s : string) : span Digit (Text.lower s) = span Digit s.
Proof.
  induction s as [|c s IH]; simpl; [reflexivity|].
  pose proof (in_class_lower_char Digit c) as Hcl. simpl in Hcl. rewrite Hcl.
  destruct (Text.is_digit c) eqn:Hd; [|reflexivity].
  rewrite (digit_lower_char c Hd), IH. reflexivity.
Qed.

Lemma lower_stable_group_end (n : nat) : lower_stable (group_end n Digit).
Proof.
  intros p p' s. rewrite !group_end_span, span_digit_lower. reflexivity.
Qed.

(** ** What a match reports *)

Lemma yields_lit (Q : captures -> Prop) (ic : bool) (l : string) (k : kont) :
  yields Q k -> yields Q (fun p s => lit ic l p s k).
Proof.
  intros Hk. induction l as [|a l IH]; [exact Hk|].
  intros p s m. destruct s as [|c s]; simpl; [discriminate|].
  destruct (char_eq ic a c); [apply IH | discriminate].
Qed.

Lemma yields_star (Q : captures -> Prop) (cl : cclass) (k : kont) :
  yields Q k -> yields Q (fun p s => star cl p s k).
Proof.
  intros Hk p s. revert p. induction s as [|c s IH]; intros p m; simpl.
  - apply Hk.
  - destruct (in_class cl c); [|apply Hk].
    destruct (star cl (Some c) s k) as [m'|] eqn:Hstar.
    + intros [= <-]. exact (IH _ _ Hstar).
    + apply Hk.
Qed.

Lemma yields_orelse (Q : captures -> Prop) (k1 k2 : kont) :
  yields Q k1 -> yields Q k2 ->
  yields Q (fun p s => match k1 p s with Some m => Some m | None => k2 p s end).
Proof.
  intros H1 H2 p s m. destruct (k1 p s) as [m'|] eqn:Hk1.
  - intros [= <-]. exact (H1 _ _ _ Hk1).
  - apply H2.
Qed.

(** ** A pattern that opens with a character that is not a blank *)

Lemma lead_fail_lit (ic : bool) (a : ascii) (l : string) (k : kont) :
  Text.is_space a = false -> lead_fail (fun p s => lit ic (String a l) p s k).
Proof.
  intros Ha p c s Hc. simpl. rewrite (char_eq_space ic a c Ha Hc). reflexivity.
Qed.

(** ** The three shapes of the program's patterns *)

Lemma match_here_literal_group (ic : bool) (l : string) (n : nat) (cl : cclass) :
  match_here ic (shape_literal_group l n cl) =
    fun p s => lit ic l p s (group_end n cl).
Proof. reflexivity. Qed.

Lemma match_here_reference (l : string) :
  match_here true (shape_reference l) =
    fun p s =>
      lit true l p s
        (fun p1 s1 =>
           star Space p1 s1
             (fun p2 s2 =>
                match
                  lit true "#" p2 s2 (fun p3 s3 => star Space p3 s3 (group_end 5 Digit))
                with
                | Some m => Some m
                | None => star Space p2 s2 (group_end 5 Digit)
                end)).
Proof. reflexivity. Qed.

Lemma match_here_ord :
  match_here true shape_ord =
    fun p s =>
      lit true "ORD" p s
        (fun p1 s1 =>
           match lit true "-" p1 s1 (group_end 5 Digit) with
           | Some m => Some m
           | None => group_end 5 Digit p1 s1
           end).
Proof. reflexivity. Qed.

Lemma strip_invariant_literal_group
    (ic : bool) (a : ascii) (l : string) (n : nat) (cl : cclass) :
  Text.is_space a = false -> no_space cl -> 1 <= n ->
  strip_invariant ic (shape_literal_group (String a l) n cl).
Proof.
  intros Ha Hcl Hn. unfold strip_invariant. rewrite match_here_literal_group. split.
  - apply trim_stable_lit, trim_stable_group_end; assumption.
  - apply lead_fail_lit. exact Ha.
Qed.

Lemma trim_stable_digits : trim_stable (group_end 5 Digit).
Proof. apply trim_stable_group_end; [exact digit_no_space | lia]. Qed.

Lemma strip_invariant_reference (a : ascii) (l : string) :
  Text.is_space a = false -> strip_invariant true (shape_reference (String a l)).
Proof.
  intros Ha. unfold strip_invariant. rewrite match_here_reference. split.
  - apply trim_stable_lit, trim_stable_star, trim_stable_orelse.
    + apply trim_stable_lit, trim_stable_star, trim_stable_digits.
    + apply trim_stable_star, trim_stable_digits.
  - apply lead_fail_lit. exact Ha.
Qed.

Lemma strip_invariant_ord : strip_invariant true shape_ord.
Proof.
  unfold strip_invariant. rewrite match_here_ord. split.
  - apply trim_stable_lit, trim_stable_orelse.
    + apply trim_stable_lit, trim_stable_digits.
    + apply trim_stable_digits.
  - apply lead_fail_lit. reflexivity.
Qed.

Lemma lower_stable_literal_digits (l : string) (n : nat) :
  lower_stable (match_here true (shape_literal_group l n Digit)).
Proof.
  rewrite match_here_literal_group.
  apply lower_stable_lit, lower_stable_group_end.
Qed.

Lemma lower_stable_reference (l : string) :
  lower_stable (match_here true (shape_reference l)).
Proof.
  rewrite match_here_reference.
  apply lower_stable_lit, lower_stable_star, lower_stable_orelse.
  - apply lower_stable_lit, lower_stable_star, lower_stable_group_end.
  - apply lower_stable_star, lower_stable_group_end.
Qed.

Lemma lower_stable_ord : lower_stable (match_here true shape_ord).
Proof.
  rewrite match_here_ord. apply lower_stable_lit, lower_stable_orelse.
  - apply lower_stable_lit, lower_stable_group_end.
  - apply lower_stable_group_end.
Qed.

Lemma yields_literal_group (ic : bool) (l : string) (n : nat) (cl : cclass) :
  yields (run_of n cl) (match_here ic (shape_literal_group l n cl)).
Proof. rewrite match_here_literal_group. apply yields_lit, yields_group_end. Qed.

Lemma yields_reference (l : string) :
  yields (run_of 5 Digit) (match_here true (shape_reference l)).
Proof.
  rewrite match_here_reference. apply yields_lit, yields_star, yields_orelse.
  - apply yields_lit, yields_star, yields_group_end.
  - apply yields_star, yields_group_end.
Qed.

Lemma yields_ord : yields (run_of 5 Digit) (match_here true shape_ord).
Proof.
  rewrite match_here_ord. apply yields_lit, yields_orelse.
  - apply yields_lit, yields_group_end.
  - apply yields_group_end.
Qed.

(** ** [re.search] *)

Lemma search_from_prev (ic : bool) (r : regex) (p p' : option ascii) (s : string) :
  trim_stable (match_here ic r) -> search_from ic r p s = search_from ic r p' s.
Proof.
  intros Hk. destruct s as [|c s]; simpl;
    rewrite (trim_stable_prev _ p p' _ Hk); reflexivity.
Qed.

Lemma search_from_blank (ic : bool) (r : regex) (p : option ascii) (s : string) :
  trim_stable (match_here ic r) -> all_space s = true -> search_from ic r p s = None.
Proof.
  intros Hk. revert p. induction s as [|c s IH]; intros p Hall; simpl.
  - rewrite (proj2 Hk p _ Hall). reflexivity.
  - rewrite (proj2 Hk p _ Hall). simpl in Hall.
    apply andb_true_iff in Hall as [_ Hall]. apply IH. exact Hall.
Qed.

Lemma search_from_lstrip (ic : bool) (r : regex) (p : option ascii) (s : string) :
  strip_invariant ic r -> search_from ic r p (Text.lstrip s) = search_from ic r p s.
Proof.
  intros [Hk Hlead]. revert p. induction s as [|c s IH]; intros p; [reflexivity|].
  cbn [Text.lstrip]. destruct (Text.is_space c) eqn:Hc; [|reflexivity].
  cbn [search_from]. rewrite (Hlead p c s Hc), IH.
  apply search_from_prev. exact Hk.
Qed.

Lemma search_from_rstrip (ic : bool) (r : regex) (p : option ascii) (s : string) :
  trim_stable (match_here ic r) ->
  search_from ic r p (Text.rstrip s) = search_from ic r p s.
Proof.
  intros Hk. revert p. induction s as [|c s IH]; intros p; [reflexivity|].
  destruct (Text.is_space c && all_space s) eqn:Hblank.
  - assert (Hall : all_space (String c s) = true) by exact Hblank.
    rewrite (proj2 (rstrip_empty _) Hall).
    rewrite !search_from_blank by (exact Hk || exact Hall || reflexivity).
    reflexivity.
  - assert (Hr : Text.rstrip (String c s) = String c (Text.rstrip s))
      by (rewrite rstrip_cons, Hblank; reflexivity).
    pose proof (proj1 Hk p p (String c s)) as Hhere. rewrite Hr in Hhere.
    rewrite Hr. cbn [search_from]. rewrite Hhere, IH. reflexivity.
Qed.

Lemma search_strip (ic : bool) (r : regex) (s : string) :
  strip_invariant ic r -> search ic r (Text.strip s) = search ic r s.
Proof.
  intros Hr. unfold search, Text.strip.
  rewrite search_from_lstrip by exact Hr.
  apply search_from_rstrip. exact (proj1 Hr).
Qed.

Lemma search_from_lower (r : regex) (p p' : option ascii) (s : string) :
  lower_stable (match_here true r) ->
  search_from true r p (Text.lower s) = search_from true r p' s.
Proof.
  intros Hk. revert p p'. induction s as [|c s IH]; intros p p'.
  - pose proof (Hk p p' EmptyString) as Hhere. cbn [Text.lower] in Hhere.
    cbn [Text.lower search_from]. rewrite Hhere. reflexivity.
  - pose proof (Hk p p' (String c s)) as Hhere. cbn [Text.lower] in Hhere.
    cbn [Text.lower search_from]. rewrite Hhere, (IH (Some (Text.lower_char c)) (Some c)).
    reflexivity.
Qed.

Lemma search_lower (r : regex) (s : string) :
  lower_stable (match_here true r) ->
  search true r (Text.lower s) = search true r s.
Proof. apply search_from_lower. Qed.

Lemma search_yields (Q : captures -> Prop) (ic : bool) (r : regex) (s : string)
    (m : captures) :
  yields Q (match_here ic r) -> search ic r s = Some m -> Q m.
Proof.
  intros Hk. unfold search. generalize (@None ascii) as p.
  induction s as [|c s IH]; intros p; cbn [search_from];
    destruct (match_here ic r p _) as [m'|] eqn:Hm.
  - intros [= <-]. exact (Hk _ _ _ Hm).
  - discriminate.
  - intros [= <-]. exact (Hk _ _ _ Hm).
  - apply IH.
Qed.

(** ** The extractors on the text [match_intent] gives them *)

Lemma name_patterns_strip : Forall (strip_invariant false) name_patterns.
Proof.
  unfold name_patterns.
  repeat (constructor;
          [apply strip_invariant_literal_group;
           [reflexivity | exact word_no_space | lia]|]).
  constructor.
Qed.

Lemma order_patterns_strip : Forall (strip_invariant true) order_patterns.
Proof.
  unfold order_patterns.
  constructor; [apply strip_invariant_reference; reflexivity|].
  constructor; [apply strip_invariant_literal_group; [reflexivity | exact digit_no_space | lia]|].
  constructor; [exact strip_invariant_ord|].
  constructor; [apply strip_invariant_reference; reflexivity|].
  constructor.
Qed.

Lemma order_patterns_lower :
  Forall (fun r => lower_stable (match_here true r)) order_patterns.
Proof.
  unfold order_patterns.
  constructor; [apply lower_stable_reference|].
  constructor; [apply lower_stable_literal_digits|].
  constructor; [exact lower_stable_ord|].
  constructor; [apply lower_stable_reference|].
  constructor.
Qed.

Lemma order_patterns_yield :
  Forall (fun r => yields (run_of 5 Digit) (match_here true r)) order_patterns.
Proof.
  unfold order_patterns.
  constructor; [apply yields_reference|].
  constructor; [apply yields_literal_group|].
  constructor; [exact yields_ord|].
  constructor; [apply yields_reference|].
  constructor.
Qed.

Lemma extract_name_loop_strip (patterns : list regex) (s : string) :
  Forall (strip_invariant false) patterns ->
  extract_name_loop patterns (Text.strip s) = extract_name_loop patterns s.
Proof.
  induction 1 as [|r rs Hr _ IH]; simpl; [reflexivity|].
  rewrite (search_strip false r s Hr), IH. reflexivity.
Qed.

Lemma extract_order_loop_normal (patterns : list regex) (s : string) :
  Forall (strip_invariant true) patterns ->
  Forall (fun r => lower_stable (match_here true r)) patterns ->
  extract_order_loop patterns (Text.strip (Text.lower s)) =
    extract_order_loop patterns s.
Proof.
  induction 1 as [|r rs Hr _ IH]; intros Hlow; simpl; [reflexivity|].
  inversion Hlow as [|? ? Hr' Hrs']; subst.
  rewrite (search_strip true r _ Hr), (search_lower r s Hr'), (IH Hrs').
  reflexivity.
Qed.

Lemma extract_order_loop_digits (patterns : list regex) (s d : string) :
  Forall (fun r => yields (run_of 5 Digit) (match_here true r)) patterns ->
  extract_order_loop patterns s = Some d ->
  5 <= String.length d /\ span Digit d = d.
Proof.
  induction 1 as [|r rs Hr _ IH]; simpl; [discriminate|].
  destruct (search true r s) as [m|] eqn:Hm; [|exact IH].
  intros ->. destruct (search_yields _ _ _ _ _ Hr Hm) as (d' & [= <-] & Hlen & Hspan).
  auto.
Qed.

(** [match_intent] and [get_personalized_response] read the same name:
    lower-casing and stripping the message first changes nothing. *)
Lemma extract_name_normal (message : string) :
  extract_name (Text.strip (Text.lower message)) = extract_name message.
Proof.
  unfold extract_name. rewrite lower_strip_lower.
  apply extract_name_loop_strip, name_patterns_strip.
Qed.

(** The same for the order number. *)
Lemma extract_order_number_normal (message : string) :
  extract_order_number (Text.strip (Text.lower message)) =
    extract_order_number message.
Proof.
  apply extract_order_loop_normal;
    [exact order_patterns_strip | exact order_patterns_lower].
Qed.

(** An extracted order number is a string of five digits or more. *)
Lemma extract_order_number_digits (message d : string) :
  extract_order_number message = Some d ->
  5 <= String.length d /\ span Digit d = d.
Proof. apply extract_order_loop_digits, order_patterns_yield. Qed.

Lemma capitalize_nonempty (s : string) :
  Text.nonempty s = true -> Text.nonempty (Text.capitalize s) = true.
Proof. destruct s; [discriminate|reflexivity]. Qed.

Lemma extract_name_loop_nonempty (patterns : list regex) (s n : string) :
  extract_name_loop patterns s = Some n -> Text.nonempty n = true.
Proof.
  induction patterns as [|r rs IH]; simpl; [discriminate|].
  destruct (search false r s) as [m|]; [|exact IH].
  unfold groups, first_group.
  destruct (Text.truthy m) eqn:Hm; [|exact IH].
  destruct m as [g|]; [|discriminate].
  intros [= <-]. apply capitalize_nonempty. exact Hm.
Qed.

(** An extracted name is not the empty string. *)
Lemma extract_name_nonempty (message n : string) :
  extract_name message = Some n -> Text.nonempty n = true.
Proof. apply extract_name_loop_nonempty. Qed.

(** ** Running the monad *)

Lemma bind_ok {A B : Type} (m : M A) (f : A -> M B) (w w' : World) (a : A) :
  m w = (Ok a, w') -> bind m f w = f a w'.
Proof. intros H. unfold bind. rewrite H. reflexivity. Qed.

Lemma bind_raise {A B : Type} (m : M A) (f : A -> M B) (w w' : World) (e : Exn) :
  m w = (Raise e, w') -> bind m f w = (Raise e, w').
Proof. intros H. unfold bind. rewrite H. reflexivity. Qed.

Lemma read_session_ok (session_id : string) (w : World) (s : Session) :
  conversations w !! session_id = Some s ->
  read_session session_id w = (Ok s, w).
Proof.
  intros H. unfold read_session, bind, get_conversations. rewrite H. reflexivity.
Qed.

Lemma update_session_ok (session_id : string) (f : Session -> Session)
    (w : World) (s : Session) :
  conversations w !! session_id = Some s ->
  update_session session_id f w =
    (Ok tt,
     mkWorld (<[session_id := f s]> (conversations w))
       (clock_reads w) (draws w) (calls w)).
Proof.
  intros H. unfold update_session.
  rewrite (bind_ok _ _ w w s (read_session_ok _ _ _ H)).
  reflexivity.
Qed.

(** ** The opening of a turn *)

Lemma chat_unfold (E : Env) (user_message session_id : string) (w : World) :
  chat E user_message session_id w =
    let sentiment := analyze_sentiment_of (polarity E user_message) in
    let w1 := counted_world E w user_message session_id in
    if is_negative sentiment && (3 <? counter_after_increment w session_id)%nat
    then (Ok (escalation_body sentiment session_id), w1)
    else reply E user_message session_id sentiment w1.
Proof.
  unfold chat, counted_world, counted_session, counter_after_increment,
    entry_session, entry_clock.
  rewrite (bind_ok get_conversations _ w w (conversations w) eq_refl).
  destruct (conversations w !! session_id) as [s|] eqn:Hs.
  - rewrite (bind_ok (ret tt) _ w w tt eq_refl).
    erewrite bind_ok; [|apply update_session_ok; exact Hs].
    erewrite bind_ok; [|reflexivity].
    erewrite bind_ok; [|apply update_session_ok; simpl; apply lookup_insert_eq].
    simpl conversations. rewrite insert_insert_eq.
    erewrite bind_ok; [|reflexivity].
    erewrite bind_ok; [|apply read_session_ok; simpl; apply lookup_insert_eq].
    simpl. destruct (is_negative _ && _); reflexivity.
  - erewrite bind_ok; [|reflexivity].
    erewrite bind_ok; [|apply update_session_ok; simpl; apply lookup_insert_eq].
    erewrite bind_ok; [|reflexivity].
    erewrite bind_ok; [|apply update_session_ok; simpl; apply lookup_insert_eq].
    simpl conversations. rewrite !insert_insert_eq.
    erewrite bind_ok; [|reflexivity].
    erewrite bind_ok; [|apply read_session_ok; simpl; apply lookup_insert_eq].
    simpl. destruct (is_negative _ && _); reflexivity.
Qed.

(** ** What the response generator leaves alone *)

Lemma keeps_store_ret {A : Type} (a : A) : keeps_store (ret a).
Proof. intros w. reflexivity. Qed.

Lemma keeps_store_raise {A : Type} (e : Exn) : keeps_store (@raise A e).
Proof. intros w. reflexivity. Qed.

Lemma keeps_store_bind {A B : Type} (m : M A) (f : A -> M B) :
  keeps_store m -> (forall a, keeps_store (f a)) -> keeps_store (bind m f).
Proof.
  intros Hm Hf w. unfold bind. specialize (Hm w).
  destruct (m w) as [[a|e] w1]; simpl in *.
  - rewrite Hf. exact Hm.
  - exact Hm.
Qed.

Lemma keeps_store_next_draw : keeps_store next_draw.
Proof. intros w. reflexivity. Qed.

Lemma keeps_store_random_choice (E : Env) (seq : list string) :
  keeps_store (random_choice E seq).
Proof.
  destruct seq as [|x seq]; simpl.
  - apply keeps_store_raise.
  - apply keeps_store_bind; [apply keeps_store_next_draw|].
    intros n. apply keeps_store_ret.
Qed.

Lemma keeps_store_random_gt_half (E : Env) : keeps_store (random_gt_half E).
Proof.
  apply keeps_store_bind; [apply keeps_store_next_draw|].
  intros n. apply keeps_store_ret.
Qed.

Lemma keeps_store_lookup_responses (E : Env) (intent : string) :
  keeps_store (lookup_responses E intent).
Proof.
  unfold lookup_responses.
  destruct (catalog_get _ _) as [d|]; [destruct (i_responses d)|];
    first [apply keeps_store_ret | apply keeps_store_raise].
Qed.

Lemma keeps_store_lower_first (response : string) : keeps_store (lower_first response).
Proof.
  destruct response; simpl; [apply keeps_store_raise | apply keeps_store_ret].
Qed.

Create HintDb store.

#[local] Hint Resolve keeps_store_ret keeps_store_raise keeps_store_random_choice
  keeps_store_random_gt_half keeps_store_lookup_responses keeps_store_lower_first
  : store.

Lemma keeps_store_get_personalized_response (E : Env) (intent : string)
    (session_data : Session) (user_message : string) :
  keeps_store (get_personalized_response E intent session_data user_message).
Proof.
  unfold get_personalized_response.
  destruct (extracted "name_intro" _ _); [auto with store|].
  destruct (extracted "order_tracking" _ _); [auto with store|].
  apply keeps_store_bind.
  { destruct (negb _ && _); auto with store. }
  intros pool. apply keeps_store_bind; [auto with store|]. intros response.
  destruct (name session_data) as [known|]; [|auto with store].
  destruct (Text.nonempty known); [|auto with store].
  apply keeps_store_bind; [auto with store|]. intros [|]; [|auto with store].
  apply keeps_store_bind; [auto with store|]. intros rest. auto with store.
Qed.

Lemma returns_ret {A : Type} (Q : A -> Prop) (a : A) : Q a -> returns Q (ret a).
Proof. intros H w w' a' Heq. injection Heq as <- _. exact H. Qed.

Lemma returns_raise {A : Type} (Q : A -> Prop) (e : Exn) : returns Q (raise e).
Proof. intros w w' a Heq. discriminate Heq. Qed.

Lemma returns_bind {A B : Type} (Q : B -> Prop) (m : M A) (f : A -> M B) :
  (forall a, returns Q (f a)) -> returns Q (bind m f).
Proof.
  intros Hf w w' b. unfold bind.
  destruct (m w) as [[a|e] w1]; [apply Hf | discriminate].
Qed.

Lemma get_personalized_response_session (E : Env) (intent : string)
    (session_data : Session) (user_message : string) :
  returns (fun r => same_but_entities session_data (snd r))
    (get_personalized_response E intent session_data user_message).
Proof.
  assert (Hsame : same_but_entities session_data session_data)
    by (repeat split).
  unfold get_personalized_response.
  destruct (extracted "name_intro" _ _); [apply returns_ret; repeat split|].
  destruct (extracted "order_tracking" _ _); [apply returns_ret; repeat split|].
  apply returns_bind. intros pool. apply returns_bind. intros response.
  destruct (name session_data) as [known|]; [|apply returns_ret; exact Hsame].
  destruct (Text.nonempty known); [|apply returns_ret; exact Hsame].
  apply returns_bind. intros [|]; [|apply returns_ret; exact Hsame].
  apply returns_bind. intros rest. apply returns_ret. exact Hsame.
Qed.

(** ** The store after a turn *)

Lemma user_entries_app (l1 l2 : list LogEntry) :
  user_entries (l1 ++ l2) = user_entries l1 + user_entries l2.
Proof.
  induction l1 as [|e l1 IH]; simpl; [reflexivity|].
  destruct (role e); simpl; rewrite IH; reflexivity.
Qed.

(** A reply changes one session only, and neither its counter nor the
    user entries of its log, whether it returns or raises. *)
Lemma reply_store (E : Env) (user_message session_id : string)
    (sentiment : Sentiment) (w : World) (s : Session) :
  conversations w !! session_id = Some s ->
  exists s' : Session,
    conversations (snd (reply E user_message session_id sentiment w)) =
      <[session_id := s']> (conversations w) /\
    message_count s' = message_count s /\
    user_entries (messages s') = user_entries (messages s).
Proof.
  intros Hs. unfold reply.
  erewrite bind_ok; [|reflexivity].
  erewrite bind_ok; [|apply update_session_ok; exact Hs].
  erewrite bind_ok; [|apply read_session_ok; simpl; apply lookup_insert_eq].
  erewrite bind_ok; [|reflexivity].
  set (intent := match_intent (responses E) user_message).
  set (s1 := set_last_intent (Some intent) s).
  set (w1 := mkWorld _ _ _ _).
  pose proof (keeps_store_get_personalized_response E intent s1 user_message w1) as Hkeep.
  pose proof (get_personalized_response_session E intent s1 user_message w1) as Hret.
  destruct (get_personalized_response E intent s1 user_message w1)
    as [[[response s2]|e] w2] eqn:Hgen; simpl in Hkeep.
  - specialize (Hret w2 (response, s2) eq_refl). simpl in Hret.
    destruct Hret as (Hcount & Hlog & _).
    erewrite bind_ok; [|exact Hgen]. cbv beta iota.
    erewrite bind_ok;
      [|apply update_session_ok; rewrite Hkeep; simpl; apply lookup_insert_eq].
    erewrite bind_ok; [|reflexivity].
    erewrite bind_ok; [|apply update_session_ok; simpl; apply lookup_insert_eq].
    erewrite bind_ok; [|reflexivity].
    erewrite bind_ok; [|apply read_session_ok; simpl; apply lookup_insert_eq].
    simpl. rewrite Hkeep. simpl. rewrite !insert_insert_eq.
    eexists. split; [reflexivity|]. simpl. split.
    + exact Hcount.
    + rewrite user_entries_app, Hlog. simpl. lia.
  - erewrite bind_raise; [|exact Hgen]. simpl. rewrite Hkeep. simpl.
    exists s1. repeat split.
Qed.

Lemma counted_world_lookup (E : Env) (w : World) (user_message session_id : string) :
  conversations (counted_world E w user_message session_id) !! session_id =
    Some (counted_session E w user_message session_id).
Proof. unfold counted_world. simpl. apply lookup_insert_eq. Qed.

(** A turn changes one session only: its counter and the user entries of
    its log both grow by one. *)
Lemma chat_store (E : Env) (user_message session_id : string) (w : World) :
  exists s' : Session,
    conversations (snd (chat E user_message session_id w)) =
      <[session_id := s']> (conversations w) /\
    message_count s' = message_count (entry_session E w session_id) + 1 /\
    user_entries (messages s') =
      user_entries (messages (entry_session E w session_id)) + 1.
Proof.
  rewrite chat_unfold. cbv zeta.
  assert (Hcounted :
    message_count (counted_session E w user_message session_id) =
      message_count (entry_session E w session_id) + 1 /\
    user_entries (messages (counted_session E w user_message session_id)) =
      user_entries (messages (entry_session E w session_id)) + 1).
  { unfold counted_session. simpl. rewrite user_entries_app. simpl. lia. }
  destruct Hcounted as [Hcount Hlog].
  destruct (is_negative _ && _).
  - exists (counted_session E w user_message session_id). simpl. auto.
  - destruct (reply_store E user_message session_id
                (analyze_sentiment_of (polarity E user_message))
                _ _ (counted_world_lookup E w user_message session_id))
      as (s' & Hstore & Hc & Hl).
    exists s'. rewrite Hstore. unfold counted_world at 1. simpl.
    rewrite insert_insert_eq. split; [reflexivity|]. lia.
Qed.

Lemma entry_session_consistent (E : Env) (w : World) (session_id : string) :
  store_consistent w -> counter_matches_log (entry_session E w session_id).
Proof.
  intros Hw. unfold entry_session.
  destruct (conversations w !! session_id) as [s|] eqn:Hs.
  - exact (Hw _ _ Hs).
  - reflexivity.
Qed.

Lemma clear_session_run (session_id : string) (w : World) :
  clear_session session_id w =
    (Ok (JObject [("status", JString "cleared")]),
     match conversations w !! session_id with
     | Some _ =>
         mkWorld (delete session_id (conversations w))
           (clock_reads w) (draws w) (calls w)
     | None => w
     end).
Proof.
  unfold clear_session.
  rewrite (bind_ok get_conversations _ w w (conversations w) eq_refl).
  destruct (conversations w !! session_id); reflexivity.
Qed.

Lemma clear_session_store (session_id : string) (w : World) :
  conversations (snd (clear_session session_id w)) =
    delete session_id (conversations w).
Proof.
  rewrite clear_session_run. simpl.
  destruct (conversations w !! session_id) eqn:Hs; simpl; [reflexivity|].
  symmetry. apply delete_id. exact Hs.
Qed.

Lemma get_history_run (session_id : string) (w : World) :
  get_history session_id w =
    (Ok match conversations w !! session_id with
        | Some s =>
            JObject [("history", JArray (map json_entry (messages s)));
                     ("session_data",
                      JObject [("name", json_optional (name s));
                               ("message_count", JNumber (message_count s));
                               ("created_at", JString (created_at s))])]
        | None => JObject [("history", JArray []); ("session_data", JObject [])]
        end, w).
Proof.
  unfold get_history.
  rewrite (bind_ok get_conversations _ w w (conversations w) eq_refl).
  destruct (conversations w !! session_id); reflexivity.
Qed.

Lemma handle_consistent (E : Env) (r : Request) (w : World) :
  store_consistent w -> store_consistent (snd (handle E r w)).
Proof.
  intros Hw. destruct r as [user_message session_id|session_id|session_id]; simpl.
  - destruct (chat_store E user_message session_id w) as (s' & Hstore & Hc & Hl).
    pose proof (entry_session_consistent E w session_id Hw) as Hentry.
    unfold counter_matches_log in Hentry.
    intros sid s. rewrite Hstore.
    destruct (decide (session_id = sid)) as [->|Hne].
    + rewrite lookup_insert_eq. intros [= <-].
      unfold counter_matches_log. lia.
    + rewrite lookup_insert_ne by exact Hne. apply Hw.
  - rewrite get_history_run. exact Hw.
  - intros sid s. rewrite clear_session_store.
    destruct (decide (session_id = sid)) as [->|Hne].
    + rewrite lookup_delete_eq. discriminate.
    + rewrite lookup_delete_ne by exact Hne. apply Hw.
Qed.

Lemma serve_consistent (E : Env) (rs : list Request) (w : World) :
  store_consistent w -> store_consistent (serve E rs w).
Proof.
  revert w. induction rs as [|r rs IH]; intros w Hw; simpl.
  - exact Hw.
  - apply IH, handle_consistent, Hw.
Qed.

Lemma reply_fields (E : Env) (user_message session_id : string) (sentiment : Sentiment) :
  returns
    (fun body =>
       has_base_fields body = true /\
       has_field "intent" body = true /\ has_field "name" body = true)
    (reply E user_message session_id sentiment).
Proof.
  unfold reply.
  apply returns_bind; intros _. cbv zeta.
  apply returns_bind; intros _.
  apply returns_bind; intros s1.
  apply returns_bind; intros _.
  apply returns_bind; intros [response s2].
  apply returns_bind; intros _.
  apply returns_bind; intros stamp.
  apply returns_bind; intros _.
  apply returns_bind; intros _.
  apply returns_bind; intros s3.
  apply returns_ret. repeat split.
Qed.

Lemma is_negative_label (E : Env) (user_message : string) :
  sentiment_label E user_message = "negative" ->
  analyze_sentiment_of (polarity E user_message) = negative.
Proof.
  unfold sentiment_label. destruct (analyze_sentiment_of _); simpl; congruence.
Qed.

(** * The claims *)

(** C1. A turn whose sentiment is negative and whose message counter,
    once incremented, exceeds 3 returns exactly the escalation offer with
    its three quick replies; of the dialogue engine only the sentiment
    scorer is called: neither [match_intent] nor
    [get_personalized_response] appears among the calls of the turn, and
    no random draw is made. *)
Theorem chat_escalation_short_circuit
    (E : Env) (user_message session_id : string) (w : World) :
  sentiment_label E user_message = "negative" ->
  3 < counter_after_increment w session_id ->
  exists w' : World,
    chat E user_message session_id w =
      (Ok (JObject
             [("response",
               JString "I notice you seem frustrated. Would you like me to connect you with a human agent? 🤝");
              ("sentiment", JString "negative");
              ("quick_replies",
               JArray [JString "Yes please"; JString "No thanks"; JString "Continue chat"]);
              ("session_id", JString session_id)]),
       w') /\
    calls w' = (calls w ++ [CallAnalyzeSentiment user_message])%list /\
    draws w' = draws w.
Proof.
  intros Hneg Hcount. apply is_negative_label in Hneg.
  rewrite chat_unfold. cbv zeta. rewrite Hneg. simpl is_negative.
  apply Nat.ltb_lt in Hcount. rewrite Hcount. simpl.
  eexists. split; [reflexivity|]. split; reflexivity.
Qed.

Lemma chat_escalation_short_circuit_witness :
  exists w' : World,
    chat demo_env "terrible service" "s1" demo_world =
      (Ok (JObject
             [("response",
               JString "I notice you seem frustrated. Would you like me to connect you with a human agent? 🤝");
              ("sentiment", JString "negative");
              ("quick_replies",
               JArray [JString "Yes please"; JString "No thanks"; JString "Continue chat"]);
              ("session_id", JString "s1")]),
       w') /\
    calls w' = (calls demo_world ++ [CallAnalyzeSentiment "terrible service"])%list /\
    draws w' = draws demo_world.
Proof.
  apply (chat_escalation_short_circuit demo_env "terrible service" "s1" demo_world).
  - reflexivity.
  - vm_compute. lia.
Defined.

(** C5. From the empty store, after any sequence of requests (turns that
    create a session, turns that reply, turns that escalate, turns that
    raise, history reads and clears), every stored session has a message
    counter equal to the number of user entries of its log. *)
Theorem counter_equals_user_entries
    (E : Env) (rs : list Request) (session_id : string) (s : Session) :
  conversations (serve E rs initial_world) !! session_id = Some s ->
  message_count s = user_entries (messages s).
Proof.
  revert session_id s. change (store_consistent (serve E rs initial_world)).
  apply serve_consistent. intros sid s Hs.
  unfold initial_world in Hs. simpl in Hs. rewrite lookup_empty in Hs. discriminate.
Qed.

Lemma counter_equals_user_entries_witness :
  exists s : Session,
    conversations (serve demo_env demo_requests initial_world) !! "s1" = Some s /\
    message_count s = user_entries (messages s).
Proof.
  eexists. split; [vm_compute; reflexivity|].
  apply (counter_equals_user_entries demo_env demo_requests "s1").
  vm_compute. reflexivity.
Defined.

(** C6. On the fourth turn of a session, a message scored negative makes
    [chat] escalate: it returns the offer, and the log of the session ends
    with the user's entry.  No bot entry is written for the offer: the
    branch returns before the append that the replying branch performs. *)
Lemma escalation_offer_not_logged :
  exists s' : Session,
    fst (chat demo_env "terrible service" "s1" demo_world) =
      Ok (escalation_body negative "s1") /\
    conversations (snd (chat demo_env "terrible service" "s1" demo_world)) !! "s1" =
      Some s' /\
    List.last (messages s') (mkLogEntry bot "" "") =
      mkLogEntry user "terrible service" "2024-05-01T10:00:00" /\
    existsb (fun e => String.eqb (message e) escalation_text) (messages s') = false.
Proof.
  eexists. split; [vm_compute; reflexivity|].
  split; [vm_compute; reflexivity|].
  split; vm_compute; reflexivity.
Qed.

(** C7. [clear_session] returns the same confirmation for every session
    id and never raises; it removes the session and, when the id is
    absent, leaves the world as it was.  [get_history] on a cleared id, and
    on any id that is not in the store, returns the empty log and the empty
    metadata, and never raises. *)
Theorem clear_and_history_of_absent_session (session_id : string) (w : World) :
  fst (clear_session session_id w) = Ok (JObject [("status", JString "cleared")]) /\
  conversations (snd (clear_session session_id w)) !! session_id = None /\
  (forall other : string,
     other <> session_id ->
     conversations (snd (clear_session session_id w)) !! other =
       conversations w !! other) /\
  (conversations w !! session_id = None -> snd (clear_session session_id w) = w) /\
  fst (get_history session_id (snd (clear_session session_id w))) =
    Ok (JObject [("history", JArray []); ("session_data", JObject [])]) /\
  (conversations w !! session_id = None ->
   get_history session_id w =
     (Ok (JObject [("history", JArray []); ("session_data", JObject [])]), w)).
Proof.
  assert (Hgone : conversations (snd (clear_session session_id w)) !! session_id = None).
  { rewrite clear_session_store. apply lookup_delete_eq. }
  split; [rewrite clear_session_run; reflexivity|].
  split; [exact Hgone|].
  split.
  { intros other Hne. rewrite clear_session_store.
    apply lookup_delete_ne. congruence. }
  split.
  { intros Habsent. rewrite clear_session_run. simpl. rewrite Habsent. reflexivity. }
  split.
  { rewrite get_history_run. simpl. rewrite Hgone. reflexivity. }
  intros Habsent. rewrite get_history_run. rewrite Habsent. reflexivity.
Qed.

(** C8, as the claim states it, fails: the body of an escalating turn has
    neither an [intent] nor a [name] field. *)
Lemma chat_body_six_fields_counterexample :
  exists body : json,
    fst (chat demo_env "terrible service" "s1" demo_world) = Ok body /\
    has_field "response" body = true /\
    has_field "intent" body = false /\
    has_field "name" body = false.
Proof.
  eexists. split; [vm_compute; reflexivity|].
  repeat split.
Qed.

(** C8, amended. Every body [chat] returns has the fields [response],
    [sentiment], [quick_replies] and [session_id].  The body of a turn that
    does not escalate has [intent] and [name] as well; the body of a turn
    that escalates has no [intent], since no intent was computed. *)
Theorem chat_body_fields
    (E : Env) (user_message session_id : string) (w : World) (body : json) :
  fst (chat E user_message session_id w) = Ok body ->
  has_base_fields body = true /\
  (escalates E w user_message session_id = false ->
   has_field "intent" body = true /\ has_field "name" body = true) /\
  (escalates E w user_message session_id = true ->
   has_field "intent" body = false).
Proof.
  rewrite chat_unfold. cbv zeta. unfold escalates.
  destruct (is_negative _ && _).
  - simpl. intros [= <-]. split; [reflexivity|].
    split; [discriminate|reflexivity].
  - intros Hbody.
    destruct (reply E user_message session_id _ _) as [[b|e] w'] eqn:Hreply;
      simpl in Hbody; [|discriminate].
    injection Hbody as ->.
    destruct (reply_fields E user_message session_id _ _ _ _ Hreply)
      as (Hbase & Hintent & Hname).
    split; [exact Hbase|]. split; [auto|discriminate].
Qed.

Lemma chat_body_fields_witness :
  has_base_fields (escalation_body negative "s1") = true /\
  (escalates demo_env demo_world "terrible service" "s1" = false ->
   has_field "intent" (escalation_body negative "s1") = true /\
   has_field "name" (escalation_body negative "s1") = true) /\
  (escalates demo_env demo_world "terrible service" "s1" = true ->
   has_field "intent" (escalation_body negative "s1") = false).
Proof.
  apply (chat_body_fields demo_env "terrible service" "s1" demo_world).
  vm_compute. reflexivity.
Defined.

(** C9. A turn that escalates finds its session in the store and changes
    nothing of it but the counter and the log: [name], [last_intent],
    [last_order] and [created_at] are as before, the counter is one more,
    and the log is the old log followed by the user's entry alone. *)
Theorem chat_escalation_frame
    (E : Env) (user_message session_id : string) (w : World) :
  sentiment_label E user_message = "negative" ->
  3 < counter_after_increment w session_id ->
  exists s s' : Session,
    conversations w !! session_id = Some s /\
    conversations (snd (chat E user_message session_id w)) !! session_id = Some s' /\
    name s' = name s /\
    last_intent s' = last_intent s /\
    last_order s' = last_order s /\
    created_at s' = created_at s /\
    message_count s' = message_count s + 1 /\
    messages s' =
      (messages s ++ [mkLogEntry user user_message (now_iso E (clock_reads w))])%list.
Proof.
  intros Hneg Hcount. apply is_negative_label in Hneg.
  rewrite chat_unfold. cbv zeta. rewrite Hneg. simpl is_negative.
  pose proof Hcount as Hlt. apply Nat.ltb_lt in Hlt. rewrite Hlt. simpl.
  unfold counter_after_increment in Hcount.
  rewrite lookup_insert_eq.
  unfold counted_session, entry_session, entry_clock.
  destruct (conversations w !! session_id) as [s|] eqn:Hs; [|simpl in Hcount; lia].
  exists s. eexists. split; [reflexivity|]. split; [reflexivity|].
  repeat split.
Qed.

Lemma chat_escalation_frame_witness :
  exists s s' : Session,
    conversations demo_world !! "s1" = Some s /\
    conversations (snd (chat demo_env "terrible service" "s1" demo_world)) !! "s1" =
      Some s' /\
    name s' = name s /\
    last_intent s' = last_intent s /\
    last_order s' = last_order s /\
    created_at s' = created_at s /\
    message_count s' = message_count s + 1 /\
    messages s' =
      (messages s ++
       [mkLogEntry user "terrible service" (now_iso demo_env (clock_reads demo_world))])%list.
Proof.
  apply (chat_escalation_frame demo_env "terrible service" "s1" demo_world).
  - reflexivity.
  - vm_compute. lia.
Defined.

(** ** Classification *)

Lemma catalog_get_key (responses : catalog) (intent : string) (d : IntentData) :
  catalog_get responses intent = Some d -> In intent (map fst responses).
Proof.
  induction responses as [|[k d'] rest IH]; simpl; [discriminate|].
  destruct (String.eqb k intent) eqn:Hk.
  - apply String.eqb_eq in Hk. auto.
  - auto.
Qed.

Lemma priority_pass_key (responses : catalog) (intents : list string)
    (words : gset string) (intent : string) :
  priority_pass responses intents words = Some intent ->
  In intent intents /\ In intent (map fst responses).
Proof.
  induction intents as [|i rest IH]; simpl; [discriminate|].
  destruct (catalog_get responses i) as [d|] eqn:Hget.
  - destruct (priority_hit words d).
    + intros [= <-]. split; [auto|]. exact (catalog_get_key _ _ _ Hget).
    + intros H. destruct (IH H). auto.
  - intros H. destruct (IH H). auto.
Qed.

Lemma general_pass_key (items : catalog) (message intent : string) :
  general_pass items message = Some intent -> In intent (map fst items).
Proof.
  induction items as [|[k d] rest IH]; cbn [general_pass map fst]; [discriminate|].
  destruct (String.eqb k "default" || in_list k priority_intents);
    [intros H; right; exact (IH H)|].
  destruct (general_hit message d); [|intros H; right; exact (IH H)].
  intros [= <-]. left. reflexivity.
Qed.

Lemma match_intent_named (responses : catalog) (message : string) :
  In (match_intent responses message) (named_intents responses).
Proof.
  unfold match_intent, named_intents. cbv zeta.
  destruct (Text.truthy (extract_name _)); [simpl; auto|].
  destruct (Text.truthy (extract_order_number _)); [simpl; auto|].
  destruct (priority_pass _ _ _) as [i|] eqn:Hp.
  { apply priority_pass_key in Hp as [_ Hp]. apply in_or_app. auto. }
  destruct (general_pass _ _) as [i|] eqn:Hg.
  { apply general_pass_key in Hg. apply in_or_app. auto. }
  destruct (existsb _ _); simpl; auto.
Qed.

(** *** The empty message *)

Lemma catalog_get_In (responses : catalog) (intent : string) (d : IntentData) :
  catalog_get responses intent = Some d -> exists k, In (k, d) responses.
Proof.
  induction responses as [|[k d'] rest IH]; simpl; [discriminate|].
  destruct (String.eqb k intent).
  - intros [= <-]. eauto.
  - intros H. destruct (IH H) as [k' Hin]. eauto.
Qed.

Lemma priority_hit_no_words (d : IntentData) :
  Forall (fun pattern => Text.split pattern <> []) (patterns_of d) ->
  priority_hit ∅ d = false.
Proof.
  unfold priority_hit. induction 1 as [|p ps Hp _ IH]; simpl; [reflexivity|].
  rewrite IH, orb_false_r. apply bool_decide_eq_false.
  unfold word_set. destruct (Text.split p) as [|x xs]; [congruence|].
  simpl. set_solver.
Qed.

Lemma general_hit_empty (d : IntentData) :
  Forall (fun pattern => Text.split pattern <> []) (patterns_of d) ->
  general_hit "" d = false.
Proof.
  unfold general_hit. induction 1 as [|p ps Hp _ IH]; cbn [existsb]; [reflexivity|].
  rewrite IH, orb_false_r.
  destruct p as [|a l]; [simpl in Hp; congruence|]. reflexivity.
Qed.

(** With any catalog whose patterns all have a word, the empty message is
    answered [default]. *)
Lemma match_intent_empty_message (responses : catalog) :
  patterns_have_words responses -> match_intent responses "" = "default".
Proof.
  intros Hwords. unfold match_intent. cbv zeta.
  change (Text.strip (Text.lower "")) with "".
  change (Text.truthy (extract_name "")) with false.
  change (Text.truthy (extract_order_number "")) with false.
  cbv iota.
  assert (Hprio : forall intents, priority_pass responses intents (word_set "") = None).
  { induction intents as [|i rest IH]; simpl; [reflexivity|].
    destruct (catalog_get responses i) as [d|] eqn:Hget; [|exact IH].
    destruct (catalog_get_In _ _ _ Hget) as [k Hin].
    unfold patterns_have_words in Hwords. rewrite List.Forall_forall in Hwords.
    change (word_set "") with (∅ : gset string).
    rewrite (priority_hit_no_words d (Hwords _ Hin)). exact IH. }
  rewrite Hprio.
  assert (Hgen : general_pass responses "" = None).
  { clear Hprio. induction Hwords as [|[k d] rest Hd _ IH];
      cbn [general_pass]; [reflexivity|].
    destruct (String.eqb k "default" || in_list k priority_intents); [exact IH|].
    rewrite (general_hit_empty d Hd). exact IH. }
  rewrite Hgen. reflexivity.
Qed.

(** A blank pattern has no word: under a priority intent it matches every
    message, the empty one too. *)
Example blank_pattern_matches_empty_message :
  match_intent [("refund", mkIntentData (Some [" "]) (Some ["ok"]))] "" = "refund".
Proof. vm_compute. reflexivity. Qed.

(** C2. [match_intent] answers every message, with any catalog, by one of
    the named intents: [name_intro], [order_tracking], [greeting],
    [default] or a key of the catalog.  With the built-in catalog these are
    five names, and the empty message is answered [default]. *)
Theorem match_intent_total :
  (forall (responses : catalog) (message : string),
     In (match_intent responses message) (named_intents responses)) /\
  (forall message : string,
     In (match_intent fallback_catalog message)
        ["name_intro"; "order_tracking"; "greeting"; "return"; "default"]) /\
  match_intent fallback_catalog "" = "default".
Proof.
  split; [exact match_intent_named|]. split; [|reflexivity].
  intros message. pose proof (match_intent_named fallback_catalog message) as H.
  unfold named_intents in H. simpl in H. simpl. tauto.
Qed.

(** ** Entities *)

Lemma first_match_name (patterns : list regex) (s : string) :
  Forall (fun r => yields (run_of 1 Word) (match_here false r)) patterns ->
  some_pattern_matches false patterns s ->
  exists g : string,
    first_match false patterns s = Some (Some g) /\
    extract_name_loop patterns s = Some (Text.capitalize g).
Proof.
  induction 1 as [|r rs Hr _ IH]; intros (r0 & Hin & Hfound).
  - destruct Hin.
  - simpl. destruct (search false r s) as [m|] eqn:Hm.
    + destruct (search_yields _ _ _ _ _ Hr Hm) as (g & -> & Hlen & _).
      exists g. split; [reflexivity|]. simpl.
      destruct g; [simpl in Hlen; lia|reflexivity].
    + apply IH. destruct Hin as [<-|Hin]; [congruence|].
      exists r0. auto.
Qed.

Lemma name_patterns_yield :
  Forall (fun r => yields (run_of 1 Word) (match_here false r)) name_patterns.
Proof.
  unfold name_patterns.
  repeat (constructor; [apply yields_literal_group|]). constructor.
Qed.

Lemma first_match_order (patterns : list regex) (s : string) :
  extract_order_loop patterns s =
    match first_match true patterns s with Some m => m | None => None end.
Proof.
  induction patterns as [|r rs IH]; simpl; [reflexivity|].
  destruct (search true r s); [reflexivity|exact IH].
Qed.

Lemma first_match_found (ic : bool) (patterns : list regex) (s : string) :
  some_pattern_matches ic patterns s ->
  exists m : captures, first_match ic patterns s = Some m.
Proof.
  induction patterns as [|r rs IH]; intros (r0 & Hin & Hfound); [destruct Hin|].
  simpl. destruct (search ic r s) as [m|] eqn:Hm; [eauto|].
  apply IH. destruct Hin as [<-|Hin]; [congruence|]. exists r0. auto.
Qed.

Lemma match_intent_name_intro (responses : catalog) (message n : string) :
  extract_name message = Some n -> match_intent responses message = "name_intro".
Proof.
  intros Hn. unfold match_intent. cbv zeta.
  rewrite extract_name_normal, Hn. simpl.
  rewrite (extract_name_nonempty _ _ Hn). reflexivity.
Qed.

Lemma order_number_nonempty (message d : string) :
  extract_order_number message = Some d -> Text.nonempty d = true.
Proof.
  intros H. apply extract_order_number_digits in H as [Hlen _].
  destruct d; [simpl in Hlen; lia|reflexivity].
Qed.

Lemma match_intent_order_tracking (responses : catalog) (message d : string) :
  extract_name message = None ->
  extract_order_number message = Some d ->
  match_intent responses message = "order_tracking".
Proof.
  intros Hn Hd. unfold match_intent. cbv zeta.
  rewrite extract_name_normal, Hn, extract_order_number_normal, Hd. simpl.
  rewrite (order_number_nonempty _ _ Hd). reflexivity.
Qed.






(** ** The generator on a well-formed catalog *)

Lemma catalog_ok_entry (responses : catalog) (intent : string) (d : IntentData) :
  forallb (fun kv => entry_ok (snd kv)) responses = true ->
  catalog_get responses intent = Some d -> entry_ok d = true.
Proof.
  induction responses as [|[k d'] rest IH]; simpl; [discriminate|].
  intros Hall. apply andb_true_iff in Hall as [Hd Hrest].
  destruct (String.eqb k intent).
  - intros [= <-]. exact Hd.
  - apply IH. exact Hrest.
Qed.

Lemma entry_ok_pool (d : IntentData) :
  entry_ok d = true ->
  exists (t : string) (pool : list string),
    i_responses d = Some (t :: pool) /\ forallb Text.nonempty (t :: pool) = true.
Proof.
  unfold entry_ok. destruct (i_responses d) as [[|t pool]|]; try discriminate.
  eauto.
Qed.

Lemma lookup_responses_ok (E : Env) (intent : string) (d : IntentData) (w : World) :
  catalog_ok (responses E) = true ->
  catalog_get (responses E) intent = Some d ->
  exists (t : string) (pool : list string),
    i_responses d = Some (t :: pool) /\
    forallb Text.nonempty (t :: pool) = true /\
    lookup_responses E intent w = (Ok (t :: pool), w).
Proof.
  intros Hok Hget. apply andb_true_iff in Hok as [_ Hall].
  destruct (entry_ok_pool d (catalog_ok_entry _ _ _ Hall Hget)) as (t & pool & Hd & Hne).
  exists t, pool. split; [exact Hd|]. split; [exact Hne|].
  unfold lookup_responses. rewrite Hget, Hd. reflexivity.
Qed.

Lemma random_choice_ok (E : Env) (t : string) (pool : list string) (w : World) :
  exists response : string,
    In response (t :: pool) /\
    random_choice E (t :: pool) w =
      (Ok response, mkWorld (conversations w) (clock_reads w) (S (draws w)) (calls w)).
Proof.
  exists (nth (rand_index E (draws w) mod length (t :: pool)) (t :: pool) t).
  split; [|reflexivity].
  apply nth_In. apply Nat.mod_upper_bound. simpl. lia.
Qed.

(** Past the two extractors, the generator answers from the catalog and
    hands the session back as it got it. *)
Lemma get_personalized_response_fall_through
    (E : Env) (intent : string) (session_data : Session) (user_message : string)
    (w : World) :
  catalog_ok (responses E) = true ->
  extracted "name_intro" intent (extract_name user_message) = None ->
  extracted "order_tracking" intent (extract_order_number user_message) = None ->
  exists (response : string) (w' : World),
    get_personalized_response E intent session_data user_message w =
      (Ok (response, session_data), w') /\
    catalog_response E intent session_data response.
Proof.
  intros Hok Hname Horder.
  unfold get_personalized_response. rewrite Hname, Horder.
  unfold catalog_response.
  set (key := if negb (String.eqb intent "default") && catalog_mem (responses E) intent
              then intent else "default").
  assert (Hkey : (if negb (String.eqb intent "default") && catalog_mem (responses E) intent
                  then lookup_responses E intent else lookup_responses E "default") =
                 lookup_responses E key).
  { unfold key. destruct (negb _ && _); reflexivity. }
  rewrite Hkey. clear Hkey.
  assert (Hmem : catalog_mem (responses E) key = true).
  { unfold key. destruct (negb _ && _) eqn:Hc.
    - apply andb_true_iff in Hc as [_ Hc]. exact Hc.
    - apply andb_true_iff in Hok as [Hok _]. exact Hok. }
  unfold catalog_mem in Hmem.
  destruct (catalog_get (responses E) key) as [d|] eqn:Hget; [|discriminate].
  destruct (lookup_responses_ok E key d w Hok Hget) as (t & pool & Hd & Hne & Hrun).
  destruct (random_choice_ok E t pool w) as (response & Hin & Hchoice).
  erewrite bind_ok; [|exact Hrun].
  erewrite bind_ok; [|exact Hchoice].
  assert (Hresp : Text.nonempty response = true).
  { rewrite forallb_forall in Hne. apply Hne. exact Hin. }
  destruct response as [|c rest]; [discriminate|].
  assert (Hplain : drawn_from (t :: pool) session_data (String c rest)).
  { exists c, rest. auto. }
  destruct (name session_data) as [known|] eqn:Hknown.
  - destruct (Text.nonempty known).
    + erewrite bind_ok; [|reflexivity].
      destruct (rand_gt_half E _).
      * erewrite bind_ok; [|reflexivity].
        eexists _, _. split; [reflexivity|].
        exists d, (t :: pool). split; [reflexivity|]. split; [exact Hd|].
        exists c, rest. split; [exact Hin|]. right. exists known. auto.
      * eexists _, _. split; [reflexivity|]. exists d, (t :: pool). auto.
    + eexists _, _. split; [reflexivity|]. exists d, (t :: pool). auto.
  - eexists _, _. split; [reflexivity|]. exists d, (t :: pool). auto.
Qed.

(** On a well-formed catalog the generator always answers, and past a
    failed extraction it answers from the catalog. *)
Lemma get_personalized_response_answers
    (E : Env) (intent : string) (session_data : Session) (user_message : string)
    (w : World) :
  catalog_ok (responses E) = true ->
  (exists (response : string) (session_data' : Session) (w' : World),
     get_personalized_response E intent session_data user_message w =
       (Ok (response, session_data'), w')) /\
  (intent = "name_intro" -> extract_name user_message = None ->
   exists (response : string) (w' : World),
     get_personalized_response E intent session_data user_message w =
       (Ok (response, session_data), w') /\
     catalog_response E intent session_data response) /\
  (intent = "order_tracking" -> extract_order_number user_message = None ->
   exists (response : string) (w' : World),
     get_personalized_response E intent session_data user_message w =
       (Ok (response, session_data), w') /\
     catalog_response E intent session_data response).
Proof.
  intros Hok. split; [|split].
  - destruct (extracted "name_intro" intent (extract_name user_message)) as [n|] eqn:Hn.
    { unfold get_personalized_response. rewrite Hn. eexists _, _, _. reflexivity. }
    destruct (extracted "order_tracking" intent (extract_order_number user_message))
      as [o|] eqn:Ho.
    { unfold get_personalized_response. rewrite Hn, Ho. eexists _, _, _. reflexivity. }
    destruct (get_personalized_response_fall_through
                E intent session_data user_message w Hok Hn Ho) as (r & w' & Hrun & _).
    eauto.
  - intros -> Hnone.
    apply get_personalized_response_fall_through; [exact Hok| |reflexivity].
    unfold extracted. rewrite Hnone. reflexivity.
  - intros -> Hnone.
    apply get_personalized_response_fall_through; [exact Hok|reflexivity|].
    unfold extracted. rewrite Hnone. reflexivity.
Qed.

(** With the built-in catalog there is nothing to assume. *)
Corollary get_personalized_response_total_builtin
    (score : string -> option Q) (clock : nat -> string) (index : nat -> nat)
    (coin : nat -> bool) (intent : string) (session_data : Session)
    (user_message : string) (w : World) :
  exists (response : string) (session_data' : Session) (w' : World),
    get_personalized_response (mkEnv fallback_catalog score clock index coin)
        intent session_data user_message w =
      (Ok (response, session_data'), w').
Proof.
  apply (get_personalized_response_answers
           (mkEnv fallback_catalog score clock index coin)).
  reflexivity.
Qed.

(** C10. With a catalog that has a [default] entry and, in every entry,
    a non-empty list of non-empty templates, the generator returns a
    response for every intent, session, message and world.  Called with
    [name_intro] on a message that holds no name, or with [order_tracking]
    on a message that holds no order number, it answers from the catalog
    (the pool of the intent when the catalog has one, the pool of [default]
    otherwise) and hands the session back unchanged. *)
Theorem get_personalized_response_total
    (E : Env) (intent : string) (session_data : Session) (user_message : string)
    (w : World) :
  catalog_ok (responses E) = true ->
  (exists (response : string) (session_data' : Session) (w' : World),
     get_personalized_response E intent session_data user_message w =
       (Ok (response, session_data'), w')) /\
  (intent = "name_intro" -> extract_name user_message = None ->
   exists (response : string) (w' : World),
     get_personalized_response E intent session_data user_message w =
       (Ok (response, session_data), w') /\
     catalog_response E intent session_data response) /\
  (intent = "order_tracking" -> extract_order_number user_message = None ->
   exists (response : string) (w' : World),
     get_personalized_response E intent session_data user_message w =
       (Ok (response, session_data), w') /\
     catalog_response E intent session_data response).
Proof. apply get_personalized_response_answers. Qed.

Lemma get_personalized_response_total_witness :
  (exists (response : string) (session_data' : Session) (w' : World),
     get_personalized_response demo_env "name_intro"
         (set_name (Some "Sam") (new_session "t0")) "no name here" initial_world =
       (Ok (response, session_data'), w')) /\
  ("name_intro" = "name_intro" -> extract_name "no name here" = None ->
   exists (response : string) (w' : World),
     get_personalized_response demo_env "name_intro"
         (set_name (Some "Sam") (new_session "t0")) "no name here" initial_world =
       (Ok (response, set_name (Some "Sam") (new_session "t0")), w') /\
     catalog_response demo_env "name_intro"
       (set_name (Some "Sam") (new_session "t0")) response) /\
  ("name_intro" = "order_tracking" -> extract_order_number "no name here" = None ->
   exists (response : string) (w' : World),
     get_personalized_response demo_env "name_intro"
         (set_name (Some "Sam") (new_session "t0")) "no name here" initial_world =
       (Ok (response, set_name (Some "Sam") (new_session "t0")), w') /\
     catalog_response demo_env "name_intro"
       (set_name (Some "Sam") (new_session "t0")) response).
Proof.
  apply (get_personalized_response_total demo_env "name_intro"
           (set_name (Some "Sam") (new_session "t0")) "no name here" initial_world).
  reflexivity.
Defined.

(** * Scenarios *)

(** The built-in catalog meets the loader's contract. *)
Example fallback_catalog_ok : catalog_ok fallback_catalog = true.
Proof. reflexivity. Qed.

(** Without a [default] entry the generator raises [KeyError] ... *)
Example generator_needs_default :
  fst (get_personalized_response
         (mkEnv [] (fun _ => None) (fun _ => "") (fun _ => 0) (fun _ => false))
         "greeting" (new_session "t0") "hello" initial_world) = Raise KeyError.
Proof. reflexivity. Qed.

(** ... and on an empty template, for a session with a name and a draw
    above one half, it raises [IndexError]. *)
Example generator_needs_nonempty_templates :
  fst (get_personalized_response
         (mkEnv [("default", mkIntentData None (Some [""]))]
            (fun _ => None) (fun _ => "") (fun _ => 0) (fun _ => true))
         "greeting" (set_name (Some "Sam") (new_session "t0")) "hello" initial_world) =
    Raise IndexError.
Proof. reflexivity. Qed.

Example scenario_name :
  match_intent fallback_catalog "my name is Sam" = "name_intro" /\
  name <$> conversations (snd (chat demo_env "my name is Sam" "s1" initial_world)) !! "s1" =
    Some (Some "Sam") /\
  field "response" <$> fst_ok (chat demo_env "my name is Sam" "s1" initial_world) =
    Some (Some (JString "Nice to meet you, Sam! 🎉 How can I help you today?")).
Proof. repeat split; vm_compute; reflexivity. Qed.

Example scenario_order :
  match_intent fallback_catalog "track order #123456" = "order_tracking" /\
  field "response" <$> fst_ok (chat demo_env "track order #123456" "s1" initial_world) =
    Some (Some (JString "Let me check order #123456 for you... 📦 It's currently being processed and will ship within 2 business days.")).
Proof. repeat split; vm_compute; reflexivity. Qed.

Example scenario_greeting :
  field "intent" <$> fst_ok (chat demo_env "hello" "s1" initial_world) =
    Some (Some (JString "greeting")) /\
  field "quick_replies" <$> fst_ok (chat demo_env "hello" "s1" initial_world) =
    Some (Some (json_strings ["Store hours"; "Return policy"; "Shipping info"; "Contact us"])).
Proof. repeat split; vm_compute; reflexivity. Qed.

Example scenario_classifier :
  match_intent fallback_catalog "I want to send it  back" = "return" /\
  match_intent fallback_catalog "refunds" = "default" /\
  match_intent fallback_catalog "  HEY there" = "greeting" /\
  match_intent fallback_catalog "this" = "greeting" /\
  match_intent fallback_catalog "ord99999x" = "order_tracking".
Proof. repeat split; vm_compute; reflexivity. Qed.

Example scenario_extractors :
  extract_order_number "Order  #  1234567 and ORD-99999" = Some "1234567" /\
  extract_order_number "order 1234" = None /\
  extract_order_number "tracking#12345" = Some "12345" /\
  extract_name "  Hi AM bob_1 x" = Some "Bob_1" /\
  extract_name "my name is " = None.
Proof. repeat split; vm_compute; reflexivity. Qed.

(** * Further properties *)

(** ** A turn that replies, step by step *)

Lemma reply_run (E : Env) (user_message session_id : string)
    (sentiment : Sentiment) (w : World) (s : Session) :
  conversations w !! session_id = Some s ->
  reply E user_message session_id sentiment w =
    match
      get_personalized_response E (match_intent (responses E) user_message)
        (set_last_intent (Some (match_intent (responses E) user_message)) s)
        user_message (generator_world E w user_message session_id s)
    with
    | (Ok (response, s2), w2) =>
        (Ok (JObject
               [("response", JString response);
                ("intent", JString (match_intent (responses E) user_message));
                ("sentiment", JString (sentiment_name sentiment));
                ("quick_replies",
                 json_strings
                   (get_quick_replies (match_intent (responses E) user_message)));
                ("name", json_optional (name s2));
                ("session_id", JString session_id)]),
         mkWorld
           (<[session_id :=
                append_message
                  (mkLogEntry bot response (now_iso E (clock_reads w2))) s2]>
              (conversations w))
           (S (clock_reads w2)) (draws w2)
           (calls w2 ++
            [CallGetQuickReplies (match_intent (responses E) user_message)]))
    | (Raise e, w2) => (Raise e, w2)
    end.
Proof.
  intros Hs. unfold reply.
  erewrite bind_ok; [|reflexivity].
  erewrite bind_ok; [|apply update_session_ok; exact Hs].
  erewrite bind_ok; [|apply read_session_ok; simpl; apply lookup_insert_eq].
  erewrite bind_ok; [|reflexivity].
  set (intent := match_intent (responses E) user_message).
  set (s1 := set_last_intent (Some intent) s).
  match goal with
  | |- bind _ _ ?w0 = _ =>
      change w0 with (generator_world E w user_message session_id s)
  end.
  set (w1 := generator_world E w user_message session_id s).
  pose proof (keeps_store_get_personalized_response E intent s1 user_message w1) as Hkeep.
  destruct (get_personalized_response E intent s1 user_message w1)
    as [[[response s2]|e] w2] eqn:Hgen; simpl in Hkeep.
  - erewrite bind_ok; [|exact Hgen]. cbv beta iota.
    erewrite bind_ok;
      [|apply update_session_ok; rewrite Hkeep; simpl; apply lookup_insert_eq].
    erewrite bind_ok; [|reflexivity].
    erewrite bind_ok; [|apply update_session_ok; simpl; apply lookup_insert_eq].
    erewrite bind_ok; [|reflexivity].
    erewrite bind_ok; [|apply read_session_ok; simpl; apply lookup_insert_eq].
    simpl. rewrite Hkeep. simpl. rewrite !insert_insert_eq. reflexivity.
  - erewrite bind_raise; [|exact Hgen]. reflexivity.
Qed.

Lemma keeps_clock_ret {A : Type} (a : A) : keeps_clock (ret a).
Proof. intros w. reflexivity. Qed.

Lemma keeps_clock_raise {A : Type} (e : Exn) : keeps_clock (@raise A e).
Proof. intros w. reflexivity. Qed.

Lemma keeps_clock_bind {A B : Type} (m : M A) (f : A -> M B) :
  keeps_clock m -> (forall a, keeps_clock (f a)) -> keeps_clock (bind m f).
Proof.
  intros Hm Hf w. unfold bind. specialize (Hm w).
  destruct (m w) as [[a|e] w1]; simpl in *.
  - rewrite Hf. exact Hm.
  - exact Hm.
Qed.

Lemma keeps_clock_random_choice (E : Env) (seq : list string) :
  keeps_clock (random_choice E seq).
Proof. destruct seq; intros w; reflexivity. Qed.

Lemma keeps_clock_random_gt_half (E : Env) : keeps_clock (random_gt_half E).
Proof. intros w. reflexivity. Qed.

Lemma keeps_clock_lookup_responses (E : Env) (intent : string) :
  keeps_clock (lookup_responses E intent).
Proof.
  unfold lookup_responses.
  destruct (catalog_get _ _) as [d|]; [destruct (i_responses d)|];
    intros w; reflexivity.
Qed.

Lemma keeps_clock_lower_first (response : string) : keeps_clock (lower_first response).
Proof. destruct response; intros w; reflexivity. Qed.

Create HintDb clock.

#[local] Hint Resolve keeps_clock_ret keeps_clock_raise keeps_clock_random_choice
  keeps_clock_random_gt_half keeps_clock_lookup_responses keeps_clock_lower_first
  : clock.

Lemma keeps_clock_get_personalized_response (E : Env) (intent : string)
    (session_data : Session) (user_message : string) :
  keeps_clock (get_personalized_response E intent session_data user_message).
Proof.
  unfold get_personalized_response.
  destruct (extracted "name_intro" _ _); [auto with clock|].
  destruct (extracted "order_tracking" _ _); [auto with clock|].
  apply keeps_clock_bind.
  { destruct (negb _ && _); auto with clock. }
  intros pool. apply keeps_clock_bind; [auto with clock|]. intros response.
  destruct (name session_data) as [known|]; [|auto with clock].
  destruct (Text.nonempty known); [|auto with clock].
  apply keeps_clock_bind; [auto with clock|]. intros [|]; [|auto with clock].
  apply keeps_clock_bind; [auto with clock|]. intros rest. auto with clock.
Qed.

Lemma counter_after_entry (E : Env) (w : World) (session_id : string) :
  counter_after_increment w session_id =
    message_count (entry_session E w session_id) + 1.
Proof.
  unfold counter_after_increment, entry_session.
  destruct (conversations w !! session_id); reflexivity.
Qed.

(** What a turn that replies returns and leaves, read off [chat]. *)
Lemma chat_replies (E : Env) (user_message session_id : string) (w w' : World)
    (body : json) :
  chat E user_message session_id w = (Ok body, w') ->
  escalates E w user_message session_id = false ->
  exists (response : string) (s2 : Session) (w2 : World),
    get_personalized_response E (match_intent (responses E) user_message)
      (set_last_intent (Some (match_intent (responses E) user_message))
         (counted_session E w user_message session_id))
      user_message
      (generator_world E (counted_world E w user_message session_id)
         user_message session_id (counted_session E w user_message session_id)) =
      (Ok (response, s2), w2) /\
    body = reply_body E user_message session_id response (name s2) /\
    conversations w' =
      <[session_id :=
          append_message
            (mkLogEntry bot response (now_iso E (S (entry_clock w session_id)))) s2]>
        (conversations w).
Proof.
  rewrite chat_unfold. cbv zeta. unfold escalates. intros Hrun Hesc.
  rewrite Hesc in Hrun.
  rewrite (reply_run E user_message session_id _ _ _
             (counted_world_lookup E w user_message session_id)) in Hrun.
  pose proof (keeps_clock_get_personalized_response E
                (match_intent (responses E) user_message)
                (set_last_intent (Some (match_intent (responses E) user_message))
                   (counted_session E w user_message session_id))
                user_message
                (generator_world E (counted_world E w user_message session_id)
                   user_message session_id
                   (counted_session E w user_message session_id))) as Hclock.
  destruct (get_personalized_response _ _ _ _ _) as [[[response s2]|e] w2];
    [|discriminate].
  simpl in Hclock. injection Hrun as <- <-.
  exists response, s2, w2. split; [reflexivity|]. split; [reflexivity|].
  simpl. rewrite Hclock, insert_insert_eq. reflexivity.
Qed.

(** The session of a turn after the turn, whatever the outcome. *)
Lemma chat_session_after (E : Env) (user_message session_id : string) (w : World) :
  exists (s' : Session) (extra : list LogEntry),
    conversations (snd (chat E user_message session_id w)) =
      <[session_id := s']> (conversations w) /\
    messages s' =
      (messages (entry_session E w session_id) ++
       mkLogEntry user user_message (now_iso E (entry_clock w session_id)) :: extra)%list /\
    length extra <= 1 /\
    Forall (fun e => role e = bot) extra /\
    created_at s' = created_at (entry_session E w session_id) /\
    message_count s' = message_count (entry_session E w session_id) + 1.
Proof.
  rewrite chat_unfold. cbv zeta.
  destruct (is_negative _ && _).
  - exists (counted_session E w user_message session_id), []. simpl.
    repeat split; auto.
  - rewrite (reply_run E user_message session_id _ _ _
               (counted_world_lookup E w user_message session_id)).
    set (intent := match_intent (responses E) user_message).
    set (s1 := set_last_intent (Some intent) _).
    set (w1 := generator_world _ _ _ _ _).
    pose proof (keeps_store_get_personalized_response E intent s1 user_message w1) as Hkeep.
    pose proof (get_personalized_response_session E intent s1 user_message w1) as Hret.
    destruct (get_personalized_response E intent s1 user_message w1)
      as [[[response s2]|e] w2]; simpl in Hkeep.
    + destruct (Hret w2 (response, s2) eq_refl) as (Hcount & Hlog & _ & Hcreated).
      simpl in Hcount, Hlog, Hcreated.
      eexists _, [_]. simpl. rewrite insert_insert_eq.
      split; [reflexivity|]. simpl. rewrite Hlog, Hcount, Hcreated. simpl.
      rewrite <- app_assoc. simpl.
      repeat split; auto.
    + simpl. rewrite Hkeep. unfold w1, generator_world. simpl.
      rewrite insert_insert_eq.
      exists s1, []. simpl. repeat split; auto.
Qed.

Lemma get_personalized_response_name (E : Env) (intent : string)
    (session_data : Session) (user_message : string) :
  returns
    (fun r =>
       name (snd r) = name session_data \/
       exists n : string,
         extract_name user_message = Some n /\ name (snd r) = Some n)
    (get_personalized_response E intent session_data user_message).
Proof.
  unfold get_personalized_response.
  destruct (extracted "name_intro" _ _) as [n|] eqn:Hn.
  { apply returns_ret. right. exists n. split; [|reflexivity].
    unfold extracted in Hn. destruct (String.eqb intent "name_intro"); [|discriminate].
    destruct (extract_name user_message) as [v|]; [|discriminate].
    destruct (Text.nonempty v); [|discriminate]. congruence. }
  destruct (extracted "order_tracking" _ _); [apply returns_ret; left; reflexivity|].
  apply returns_bind. intros pool. apply returns_bind. intros response.
  destruct (name session_data) as [known|] eqn:Hknown;
    [|apply returns_ret; left; simpl; congruence].
  destruct (Text.nonempty known); [|apply returns_ret; left; simpl; congruence].
  apply returns_bind. intros [|]; [|apply returns_ret; left; simpl; congruence].
  apply returns_bind. intros rest. apply returns_ret. left. simpl. congruence.
Qed.

Lemma serve_chat_count (E : Env) (session_id : string) (msgs : list string) :
  forall (m : string) (w : World),
    exists s : Session,
      conversations (serve E (chat_requests session_id (m :: msgs)) w) !! session_id =
        Some s /\
      message_count s =
        message_count (entry_session E w session_id) + S (length msgs).
Proof.
  induction msgs as [|m' msgs IH]; intros m w.
  - destruct (chat_store E m session_id w) as (s' & Hstore & Hcount & _).
    exists s'. simpl. rewrite Hstore, lookup_insert_eq. split; [reflexivity|lia].
  - destruct (chat_store E m session_id w) as (s' & Hstore & Hcount & _).
    destruct (IH m' (snd (chat E m session_id w))) as (s & Hs & Hc).
    exists s. split; [exact Hs|].
    rewrite Hc. unfold entry_session at 1.
    rewrite Hstore, lookup_insert_eq, Hcount. simpl. lia.
Qed.

(** ** Properties of the request handlers *)

(** X1. A request whose body gives an ASCII string, or nothing, as its
    message and a string, or nothing, as its session id is a chat turn on
    that message (the empty one by default) and that session (["default"]
    by default); with a catalog that meets the loader's contract the turn
    raises no exception and answers with a body. *)
Theorem chat_never_raises
    (E : Env) (fields : list (string * json)) (user_message session_id : string)
    (w : World) :
  catalog_ok (responses E) = true ->
  body_get fields "message" (JString "") = JString user_message ->
  body_get fields "session_id" (JString "default") = JString session_id ->
  ascii_text user_message = true ->
  exists (body : json) (w' : World),
    chat_route E (JObject fields) = Some (chat E user_message session_id) /\
    chat E user_message session_id w = (Ok body, w').
Proof.
  intros Hok Hmessage Hid _.
  assert (Hroute : chat_route E (JObject fields) = Some (chat E user_message session_id)).
  { unfold chat_route. rewrite Hmessage, Hid. reflexivity. }
  rewrite chat_unfold. cbv zeta.
  destruct (is_negative _ && _); [eauto|].
  rewrite (reply_run E user_message session_id _ _ _
             (counted_world_lookup E w user_message session_id)).
  match goal with
  | |- context [get_personalized_response ?E0 ?i ?s0 ?m0 ?w0] =>
      destruct (proj1 (get_personalized_response_answers E0 i s0 m0 w0 Hok))
        as (response & s2 & w2 & Hgen)
  end.
  rewrite Hgen. eauto.
Qed.

Lemma chat_never_raises_witness :
  exists (body : json) (w' : World),
    chat_route demo_env
      (JObject [("message", JString "hi"); ("lang", JNull);
                ("message", JString "do you sell gift cards?")]) =
      Some (chat demo_env "do you sell gift cards?" "default") /\
    chat demo_env "do you sell gift cards?" "default" demo_world = (Ok body, w').
Proof.
  apply (chat_never_raises demo_env
           [("message", JString "hi"); ("lang", JNull);
            ("message", JString "do you sell gift cards?")]
           "do you sell gift cards?" "default" demo_world); reflexivity.
Defined.

(** X2. A turn that returns without escalating reports the intent
    [match_intent] computed, the quick replies of that intent, the label of
    the message and the name the session holds after the turn; it stores the
    intent as [last_intent], and it appends to the log the user's entry
    followed by one bot entry whose text is the response of the body. *)
Theorem chat_reply_is_logged
    (E : Env) (user_message session_id : string) (w w' : World) (body : json) :
  chat E user_message session_id w = (Ok body, w') ->
  escalates E w user_message session_id = false ->
  exists (response : string) (s' : Session),
    conversations w' !! session_id = Some s' /\
    body = reply_body E user_message session_id response (name s') /\
    last_intent s' = Some (match_intent (responses E) user_message) /\
    message_count s' = counter_after_increment w session_id /\
    messages s' =
      (messages (entry_session E w session_id) ++
       [mkLogEntry user user_message (now_iso E (entry_clock w session_id));
        mkLogEntry bot response (now_iso E (S (entry_clock w session_id)))])%list.
Proof.
  intros Hrun Hesc.
  destruct (chat_replies E user_message session_id w w' body Hrun Hesc)
    as (response & s2 & w2 & Hgen & Hbody & Hstore).
  destruct (get_personalized_response_session _ _ _ _ _ _ _ Hgen)
    as (Hcount & Hlog & Hintent & _).
  simpl in Hcount, Hlog, Hintent.
  exists response. eexists. rewrite Hstore, lookup_insert_eq.
  split; [reflexivity|]. split; [exact Hbody|].
  simpl. rewrite Hintent, Hcount, Hlog, (counter_after_entry E).
  rewrite <- app_assoc. repeat split.
Qed.

Lemma chat_reply_is_logged_witness :
  exists (body : json) (w' : World),
    chat demo_env "hello" "s2" demo_world = (Ok body, w') /\
    exists (response : string) (s' : Session),
      conversations w' !! "s2" = Some s' /\
      body = reply_body demo_env "hello" "s2" response (name s') /\
      last_intent s' = Some (match_intent (responses demo_env) "hello") /\
      message_count s' = counter_after_increment demo_world "s2" /\
      messages s' =
        (messages (entry_session demo_env demo_world "s2") ++
         [mkLogEntry user "hello" (now_iso demo_env (entry_clock demo_world "s2"));
          mkLogEntry bot response
            (now_iso demo_env (S (entry_clock demo_world "s2")))])%list.
Proof.
  eexists. eexists. split; [vm_compute; reflexivity|].
  apply (chat_reply_is_logged demo_env "hello" "s2" demo_world).
  - vm_compute. reflexivity.
  - vm_compute. reflexivity.
Defined.

(** X3. A request touches the session it names and no other: whatever a
    chat turn, a history read or a clear does, and whether it returns or
    raises, every other session is stored as before. *)
Theorem handle_leaves_other_sessions
    (E : Env) (r : Request) (w : World) (other : string) :
  other <> request_id r ->
  conversations (snd (handle E r w)) !! other = conversations w !! other.
Proof.
  intros Hne. destruct r as [user_message session_id|session_id|session_id];
    simpl in Hne; simpl.
  - destruct (chat_store E user_message session_id w) as (s' & Hstore & _).
    rewrite Hstore. apply lookup_insert_ne. congruence.
  - rewrite get_history_run. reflexivity.
  - rewrite clear_session_store. apply lookup_delete_ne. congruence.
Qed.

Lemma handle_leaves_other_sessions_witness :
  conversations (snd (handle demo_env (ReqClear "s2") demo_world)) !! "s1" =
    conversations demo_world !! "s1".
Proof.
  apply (handle_leaves_other_sessions demo_env (ReqClear "s2") demo_world "s1").
  discriminate.
Defined.

(** X4. The log is append-only and [created_at] is written once: after a
    turn on a stored session, whatever its outcome, the old log is a
    prefix of the new one, followed by the user's entry and at most one bot
    entry; the creation time is the old one and the counter is one more. *)
Theorem chat_log_is_append_only
    (E : Env) (user_message session_id : string) (w : World) (s : Session) :
  conversations w !! session_id = Some s ->
  exists (s' : Session) (extra : list LogEntry),
    conversations (snd (chat E user_message session_id w)) !! session_id = Some s' /\
    messages s' =
      (messages s ++
       mkLogEntry user user_message (now_iso E (clock_reads w)) :: extra)%list /\
    length extra <= 1 /\
    Forall (fun e => role e = bot) extra /\
    created_at s' = created_at s /\
    message_count s' = message_count s + 1.
Proof.
  intros Hs.
  destruct (chat_session_after E user_message session_id w)
    as (s' & extra & Hstore & Hlog & Hlen & Hbot & Hcreated & Hcount).
  unfold entry_session, entry_clock in *. rewrite Hs in *.
  exists s', extra. rewrite Hstore, lookup_insert_eq. auto 10.
Qed.

Lemma chat_log_is_append_only_witness :
  exists s : Session,
    conversations demo_world !! "s1" = Some s /\
    exists (s' : Session) (extra : list LogEntry),
      conversations (snd (chat demo_env "thanks" "s1" demo_world)) !! "s1" = Some s' /\
      messages s' =
        (messages s ++
         mkLogEntry user "thanks" (now_iso demo_env (clock_reads demo_world)) :: extra)%list /\
      length extra <= 1 /\
      Forall (fun e => role e = bot) extra /\
      created_at s' = created_at s /\
      message_count s' = message_count s + 1.
Proof.
  eexists. split; [vm_compute; reflexivity|].
  apply (chat_log_is_append_only demo_env "thanks" "s1" demo_world).
  vm_compute. reflexivity.
Defined.

(** X5. The counter counts turns: after one chat request or more on a
    session that was not stored, and nothing else, the session's counter
    and the number of user entries of its log both equal the number of
    requests, whether the turns replied, escalated or raised. *)
Theorem counter_counts_turns
    (E : Env) (session_id : string) (m : string) (msgs : list string) :
  exists s : Session,
    conversations (serve E (chat_requests session_id (m :: msgs)) initial_world)
      !! session_id = Some s /\
    message_count s = S (length msgs) /\
    user_entries (messages s) = S (length msgs).
Proof.
  destruct (serve_chat_count E session_id msgs m initial_world) as (s & Hs & Hcount).
  exists s. split; [exact Hs|].
  assert (Hc : message_count s = S (length msgs)) by (rewrite Hcount; reflexivity).
  split; [exact Hc|]. rewrite <- Hc. symmetry.
  refine (serve_consistent E _ initial_world _ session_id s Hs).
  intros sid s0 H0. simpl in H0. rewrite lookup_empty in H0. discriminate.
Qed.

(** X6. What was said can be read back: after a chat turn, whatever its
    outcome, [get_history] for that session returns a log that holds the
    user's entry with the message, and a [message_count] equal to the
    counter the turn tested. *)
Theorem history_shows_the_message
    (E : Env) (user_message session_id : string) (w : World) :
  exists (history : list json) (meta : json),
    fst (get_history session_id (snd (chat E user_message session_id w))) =
      Ok (JObject [("history", JArray history); ("session_data", meta)]) /\
    In (JObject [("role", JString "user");
                 ("message", JString user_message);
                 ("timestamp", JString (now_iso E (entry_clock w session_id)))])
       history /\
    field "message_count" meta = Some (JNumber (counter_after_increment w session_id)).
Proof.
  destruct (chat_session_after E user_message session_id w)
    as (s' & extra & Hstore & Hlog & _ & _ & _ & Hcount).
  rewrite get_history_run. simpl. rewrite Hstore, lookup_insert_eq.
  eexists _, _. split; [reflexivity|]. split.
  - rewrite Hlog, map_app. apply in_or_app. right. left. reflexivity.
  - simpl. rewrite Hcount, (counter_after_entry E). reflexivity.
Qed.

(** X7. A cleared session starts afresh.  Clearing twice is clearing
    once; the first turn after a clear cannot escalate, whatever the
    sentiment; it leaves a session with counter 1, created at that turn,
    whose log starts with the user's entry, and whose name is unknown
    unless the message itself introduces one. *)
Theorem chat_after_clear_starts_afresh
    (E : Env) (user_message session_id : string) (w : World) :
  snd (clear_session session_id (snd (clear_session session_id w))) =
    snd (clear_session session_id w) /\
  escalates E (snd (clear_session session_id w)) user_message session_id = false /\
  exists (s' : Session) (extra : list LogEntry),
    conversations
      (snd (chat E user_message session_id (snd (clear_session session_id w))))
      !! session_id = Some s' /\
    message_count s' = 1 /\
    created_at s' = now_iso E (clock_reads w) /\
    messages s' =
      mkLogEntry user user_message (now_iso E (S (clock_reads w))) :: extra /\
    (extract_name user_message = None -> name s' = None).
Proof.
  set (w1 := snd (clear_session session_id w)).
  assert (Hgone : conversations w1 !! session_id = None).
  { unfold w1. rewrite clear_session_store. apply lookup_delete_eq. }
  assert (Hclock : clock_reads w1 = clock_reads w).
  { unfold w1. rewrite clear_session_run. simpl.
    destruct (conversations w !! session_id); reflexivity. }
  split.
  { rewrite (clear_session_run session_id w1). simpl. rewrite Hgone. reflexivity. }
  assert (Hesc : escalates E w1 user_message session_id = false).
  { unfold escalates, counter_after_increment. rewrite Hgone. simpl.
    apply andb_false_r. }
  split; [exact Hesc|].
  rewrite chat_unfold. cbv zeta. fold (escalates E w1 user_message session_id).
  rewrite Hesc.
  rewrite (reply_run E user_message session_id _ _ _
             (counted_world_lookup E w1 user_message session_id)).
  set (intent := match_intent (responses E) user_message).
  set (s1 := set_last_intent (Some intent) _).
  set (wg := generator_world _ _ _ _ _).
  pose proof (keeps_store_get_personalized_response E intent s1 user_message wg) as Hkeep.
  pose proof (get_personalized_response_session E intent s1 user_message wg) as Hret.
  pose proof (get_personalized_response_name E intent s1 user_message wg) as Hname.
  assert (Hs1 : message_count s1 = 1 /\ created_at s1 = now_iso E (clock_reads w) /\
                messages s1 = [mkLogEntry user user_message (now_iso E (S (clock_reads w)))] /\
                name s1 = None).
  { unfold s1, counted_session, entry_session, entry_clock.
    rewrite Hgone, Hclock. repeat split. }
  destruct Hs1 as (Hc1 & Hcr1 & Hl1 & Hn1).
  destruct (get_personalized_response E intent s1 user_message wg)
    as [[[response s2]|e] w2]; simpl in Hkeep.
  - destruct (Hret w2 (response, s2) eq_refl) as (Hcount & Hlog & _ & Hcreated).
    specialize (Hname w2 (response, s2) eq_refl).
    cbn [snd] in Hcount, Hlog, Hcreated, Hname.
    eexists _, [_]. cbn [snd conversations]. rewrite lookup_insert_eq.
    split; [reflexivity|].
    cbn [append_message message_count created_at messages name].
    rewrite Hcount, Hcreated, Hlog, Hl1.
    repeat split; auto.
    intros Hnone. destruct Hname as [Hsame|(n & Hn & _)]; congruence.
  - simpl. rewrite Hkeep. unfold wg, generator_world. simpl.
    rewrite lookup_insert_eq.
    exists s1, []. repeat split; auto.
Qed.

(** ** More on text *)

Lemma lstrip_blank (s : string) : all_space s = true -> Text.lstrip s = EmptyString.
Proof.
  induction s as [|c s IH]; simpl; [reflexivity|].
  intros H. apply andb_true_iff in H as [Hc Hs]. rewrite Hc. auto.
Qed.

Lemma lstrip_idem (s : string) : Text.lstrip (Text.lstrip s) = Text.lstrip s.
Proof.
  induction s as [|c s IH]; simpl; [reflexivity|].
  destruct (Text.is_space c) eqn:Hc; [exact IH|]. simpl. rewrite Hc. reflexivity.
Qed.

Lemma all_space_rstrip (s : string) : all_space (Text.rstrip s) = all_space s.
Proof.
  induction s as [|c s IH]; [reflexivity|].
  rewrite rstrip_cons. destruct (Text.is_space c && all_space s) eqn:Hblank.
  - symmetry. exact Hblank.
  - simpl. rewrite IH. reflexivity.
Qed.

Lemma rstrip_idem (s : string) : Text.rstrip (Text.rstrip s) = Text.rstrip s.
Proof.
  induction s as [|c s IH]; [reflexivity|].
  rewrite rstrip_cons. destruct (Text.is_space c && all_space s) eqn:Hblank.
  - reflexivity.
  - rewrite rstrip_cons, all_space_rstrip, Hblank, IH. reflexivity.
Qed.

Lemma lstrip_rstrip (s : string) :
  Text.lstrip (Text.rstrip s) = Text.rstrip (Text.lstrip s).
Proof.
  induction s as [|c s IH]; [reflexivity|].
  cbn [Text.lstrip]. rewrite rstrip_cons.
  destruct (Text.is_space c) eqn:Hc; cbn [andb].
  - destruct (all_space s) eqn:Hall.
    + rewrite (lstrip_blank s Hall). reflexivity.
    + cbn [Text.lstrip]. rewrite Hc. exact IH.
  - cbn [Text.lstrip]. rewrite Hc, rstrip_cons, Hc. reflexivity.
Qed.

Lemma strip_idem (s : string) : Text.strip (Text.strip s) = Text.strip s.
Proof.
  unfold Text.strip.
  rewrite <- (lstrip_rstrip (Text.rstrip s)), lstrip_idem, rstrip_idem. reflexivity.
Qed.

Lemma normal_lower (message : string) : normal (Text.lower message) = normal message.
Proof. unfold normal. rewrite lower_idem. reflexivity. Qed.

Lemma normal_strip (message : string) : normal (Text.strip message) = normal message.
Proof. unfold normal. rewrite lower_strip, strip_idem. reflexivity. Qed.

Lemma contains_tail (p : string) (c : ascii) (s : string) :
  Text.contains p s = true -> Text.contains p (String c s) = true.
Proof. intros H. cbn [Text.contains]. rewrite H. apply orb_true_r. Qed.

Lemma contains_prefix (p s : string) :
  Text.starts_with p s = true -> Text.contains p s = true.
Proof. intros H. destruct s; cbn [Text.contains]; rewrite H; reflexivity. Qed.

Lemma starts_with_span (cl : cclass) (s : string) :
  Text.starts_with (span cl s) s = true.
Proof.
  induction s as [|c s IH]; simpl; [reflexivity|].
  destruct (in_class cl c); simpl; [|reflexivity].
  rewrite Ascii.eqb_refl. exact IH.
Qed.

(** ** Where a group comes from *)

Lemma occurs_lit (ic : bool) (l : string) (k : kont) :
  occurs k -> occurs (fun p s => lit ic l p s k).
Proof.
  intros Hk. induction l as [|a l IH]; [exact Hk|].
  intros p s d. destruct s as [|c s]; simpl; [discriminate|].
  destruct (char_eq ic a c); [|discriminate].
  intros H. apply contains_tail. exact (IH _ _ _ H).
Qed.

Lemma occurs_star (cl : cclass) (k : kont) :
  occurs k -> occurs (fun p s => star cl p s k).
Proof.
  intros Hk p s. revert p. induction s as [|c s IH]; intros p d; simpl.
  - apply Hk.
  - destruct (in_class cl c); [|apply Hk].
    destruct (star cl (Some c) s k) as [m|] eqn:Hstar.
    + intros [= ->]. apply contains_tail. exact (IH _ _ Hstar).
    + apply Hk.
Qed.

Lemma occurs_orelse (k1 k2 : kont) :
  occurs k1 -> occurs k2 ->
  occurs (fun p s => match k1 p s with Some m => Some m | None => k2 p s end).
Proof.
  intros H1 H2 p s d. destruct (k1 p s) as [m|] eqn:Hk1.
  - intros [= ->]. exact (H1 _ _ _ Hk1).
  - apply H2.
Qed.

Lemma occurs_group_end (n : nat) (cl : cclass) : occurs (group_end n cl).
Proof.
  intros p s d. rewrite group_end_span.
  destruct (n <=? String.length (span cl s))%nat; [|discriminate].
  intros [= <-]. apply contains_prefix, starts_with_span.
Qed.

Lemma occurs_literal_group (ic : bool) (l : string) (n : nat) (cl : cclass) :
  occurs (match_here ic (shape_literal_group l n cl)).
Proof. rewrite match_here_literal_group. apply occurs_lit, occurs_group_end. Qed.

Lemma occurs_reference (l : string) : occurs (match_here true (shape_reference l)).
Proof.
  rewrite match_here_reference. apply occurs_lit, occurs_star, occurs_orelse.
  - apply occurs_lit, occurs_star, occurs_group_end.
  - apply occurs_star, occurs_group_end.
Qed.

Lemma occurs_ord : occurs (match_here true shape_ord).
Proof.
  rewrite match_here_ord. apply occurs_lit, occurs_orelse.
  - apply occurs_lit, occurs_group_end.
  - apply occurs_group_end.
Qed.

Lemma search_occurs (ic : bool) (r : regex) (s d : string) :
  occurs (match_here ic r) -> search ic r s = Some (Some d) ->
  Text.contains d s = true.
Proof.
  intros Hk. unfold search. generalize (@None ascii) as p.
  induction s as [|c s IH]; intros p; cbn [search_from];
    destruct (match_here ic r p _) as [m|] eqn:Hm.
  - intros [= ->]. exact (Hk _ _ _ Hm).
  - discriminate.
  - intros [= ->]. exact (Hk _ _ _ Hm).
  - intros H. apply contains_tail. exact (IH _ H).
Qed.

Lemma name_patterns_occur : Forall (fun r => occurs (match_here false r)) name_patterns.
Proof.
  unfold name_patterns.
  repeat (constructor; [apply occurs_literal_group|]). constructor.
Qed.

Lemma order_patterns_occur : Forall (fun r => occurs (match_here true r)) order_patterns.
Proof.
  unfold order_patterns.
  constructor; [apply occurs_reference|].
  constructor; [apply occurs_literal_group|].
  constructor; [exact occurs_ord|].
  constructor; [apply occurs_reference|].
  constructor.
Qed.

Lemma extract_order_loop_occurs (patterns : list regex) (s d : string) :
  Forall (fun r => occurs (match_here true r)) patterns ->
  extract_order_loop patterns s = Some d -> Text.contains d s = true.
Proof.
  induction 1 as [|r rs Hr _ IH]; simpl; [discriminate|].
  destruct (search true r s) as [m|] eqn:Hm; [|exact IH].
  intros ->. exact (search_occurs _ _ _ _ Hr Hm).
Qed.

Lemma extract_name_loop_capture (patterns : list regex) (s n : string) :
  Forall (fun r => yields (run_of 1 Word) (match_here false r)) patterns ->
  Forall (fun r => occurs (match_here false r)) patterns ->
  extract_name_loop patterns s = Some n ->
  exists g : string,
    n = Text.capitalize g /\ 1 <= String.length g /\ span Word g = g /\
    Text.contains g s = true.
Proof.
  induction 1 as [|r rs Hr _ IH]; intros Hocc; simpl; [discriminate|].
  inversion Hocc as [|? ? Ho Hos]; subst.
  destruct (search false r s) as [m|] eqn:Hm; [|exact (IH Hos)].
  destruct (search_yields _ _ _ _ _ Hr Hm) as (g & -> & Hlen & Hspan).
  unfold groups, first_group.
  destruct g as [|c g]; [simpl in Hlen; lia|]. simpl Text.truthy. cbv iota.
  intros [= <-]. exists (String c g). repeat split; auto.
  exact (search_occurs _ _ _ _ Ho Hm).
Qed.

Lemma is_word_upper_char (c : ascii) : Text.is_word (Text.upper_char c) = Text.is_word c.
Proof. by_cases_on c. Qed.

Lemma is_lower_upper_char (c : ascii) : Text.is_lower (Text.upper_char c) = false.
Proof. by_cases_on c. Qed.

Lemma span_word_lower (s : string) : span Word s = s -> span Word (Text.lower s) = Text.lower s.
Proof.
  induction s as [|c s IH]; simpl; [reflexivity|].
  pose proof (in_class_lower_char Word c) as Hcl. simpl in Hcl. rewrite Hcl.
  destruct (Text.is_word c); [|discriminate].
  intros [= H]. rewrite (IH H). reflexivity.
Qed.

Lemma all_word_capitalize (g : string) : all_word g -> all_word (Text.capitalize g).
Proof.
  unfold all_word. destruct g as [|c g]; simpl; [reflexivity|].
  rewrite is_word_upper_char. destruct (Text.is_word c); [|discriminate].
  intros [= H]. rewrite (span_word_lower g H). reflexivity.
Qed.

(** ** More on the two passes of the classifier *)

Lemma lit_starts_with (l : string) (p : option ascii) (s : string) (k : kont)
    (m : captures) :
  lit false l p s k = Some m -> Text.starts_with l s = true.
Proof.
  revert p s. induction l as [|a l IH]; intros p s; [reflexivity|].
  destruct s as [|c s]; simpl; [discriminate|].
  destruct (Ascii.eqb a c); [apply IH|discriminate].
Qed.

Lemma whole_word_starts_with (pattern : string) (p : option ascii) (s : string)
    (m : captures) :
  match_here false (whole_word pattern) p s = Some m ->
  Text.starts_with pattern s = true.
Proof.
  unfold match_here, whole_word. cbn [Re.run].
  destruct (at_boundary p s); [|discriminate].
  apply lit_starts_with.
Qed.

Lemma search_whole_word_contains (pattern s : string) (m : captures) :
  search false (whole_word pattern) s = Some m -> Text.contains pattern s = true.
Proof.
  unfold search. generalize (@None ascii) as p.
  induction s as [|c s IH]; intros p; cbn [search_from];
    destruct (match_here false (whole_word pattern) p _) as [m'|] eqn:Hm.
  - intros _. apply contains_prefix. exact (whole_word_starts_with _ _ _ _ Hm).
  - discriminate.
  - intros _. apply contains_prefix. exact (whole_word_starts_with _ _ _ _ Hm).
  - intros H. apply contains_tail. exact (IH _ H).
Qed.

Lemma general_hit_contains (message : string) (d : IntentData) :
  general_hit message d =
    existsb (fun pattern => Text.contains pattern message) (patterns_of d).
Proof.
  unfold general_hit. induction (patterns_of d) as [|p ps IH]; [reflexivity|].
  cbn [existsb]. rewrite IH. f_equal.
  destruct (search false (whole_word p) message) as [m|] eqn:Hm; [|reflexivity].
  symmetry. exact (search_whole_word_contains _ _ _ Hm).
Qed.

Lemma keys_mem (responses : catalog) (k : string) :
  In k (map fst responses) -> catalog_mem responses k = true.
Proof.
  unfold catalog_mem. induction responses as [|[k' d] rest IH]; simpl; [tauto|].
  destruct (String.eqb k' k) eqn:Hk; [reflexivity|].
  intros [->|Hin]; [rewrite String.eqb_refl in Hk; discriminate|auto].
Qed.

Lemma priority_pass_sound (responses : catalog) (intents : list string)
    (words : gset string) (intent : string) :
  priority_pass responses intents words = Some intent ->
  In intent intents /\
  exists d pattern,
    catalog_get responses intent = Some d /\ In pattern (patterns_of d) /\
    word_set pattern ⊆ words.
Proof.
  induction intents as [|i rest IH]; simpl; [discriminate|].
  destruct (catalog_get responses i) as [d|] eqn:Hget.
  - destruct (priority_hit words d) eqn:Hhit.
    + intros [= <-]. split; [auto|].
      unfold priority_hit in Hhit. apply existsb_exists in Hhit as (p & Hin & Hp).
      apply bool_decide_eq_true in Hp. eauto.
    + intros H. destruct (IH H) as [Hin Hrest]. auto.
  - intros H. destruct (IH H) as [Hin Hrest]. auto.
Qed.

Lemma priority_pass_complete (responses : catalog) (intents : list string)
    (words : gset string) (intent pattern : string) (d : IntentData) :
  In intent intents ->
  catalog_get responses intent = Some d -> In pattern (patterns_of d) ->
  word_set pattern ⊆ words ->
  exists found : string,
    priority_pass responses intents words = Some found /\ In found intents.
Proof.
  intros Hin Hget Hpat Hsub.
  assert (Hhit : priority_hit words d = true).
  { unfold priority_hit. apply existsb_exists. exists pattern.
    split; [exact Hpat|]. apply bool_decide_eq_true. exact Hsub. }
  induction intents as [|i rest IH]; [destruct Hin|]. simpl.
  destruct (catalog_get responses i) as [d'|] eqn:Hget'.
  - destruct (priority_hit words d') eqn:Hhit'; [eauto|].
    destruct Hin as [->|Hin]; [congruence|].
    destruct (IH Hin) as (f & Hf & Hfin). eauto.
  - destruct Hin as [->|Hin]; [congruence|].
    destruct (IH Hin) as (f & Hf & Hfin). eauto.
Qed.

Lemma general_pass_sound (items : catalog) (message intent : string) :
  general_pass items message = Some intent ->
  in_list intent priority_intents = false /\ intent <> "default" /\
  exists d pattern,
    In (intent, d) items /\ In pattern (patterns_of d) /\
    Text.contains pattern message = true.
Proof.
  induction items as [|[k d] rest IH]; cbn [general_pass]; [discriminate|].
  destruct (String.eqb k "default" || in_list k priority_intents) eqn:Hskip.
  - intros H. destruct (IH H) as (Hp & Hd & d' & p & Hin & Hrest).
    split; [exact Hp|]. split; [exact Hd|]. exists d', p. split; [right; exact Hin|exact Hrest].
  - destruct (general_hit message d) eqn:Hhit.
    + intros [= <-]. apply orb_false_iff in Hskip as [Hdef Hprio].
      split; [exact Hprio|]. split; [apply String.eqb_neq; exact Hdef|].
      rewrite general_hit_contains in Hhit.
      apply existsb_exists in Hhit as (p & Hin & Hp).
      exists d, p. split; [left; reflexivity|]. auto.
    + intros H. destruct (IH H) as (Hp & Hd & d' & p & Hin & Hrest).
      split; [exact Hp|]. split; [exact Hd|]. exists d', p.
      split; [right; exact Hin|exact Hrest].
Qed.

Lemma truthy_some (o : option string) :
  Text.truthy o = true -> exists v, o = Some v.
Proof. destruct o; [eauto|discriminate]. Qed.

Lemma extract_name_truthy (message : string) :
  Text.truthy (extract_name message) = false -> extract_name message = None.
Proof.
  destruct (extract_name message) as [n|] eqn:Hn; [|reflexivity].
  simpl. rewrite (extract_name_nonempty _ _ Hn). discriminate.
Qed.

Lemma extract_order_number_truthy (message : string) :
  Text.truthy (extract_order_number message) = false ->
  extract_order_number message = None.
Proof.
  destruct (extract_order_number message) as [d|] eqn:Hd; [|reflexivity].
  simpl. rewrite (order_number_nonempty _ _ Hd). discriminate.
Qed.

(** Every answer of [match_intent] has its reason. *)
Lemma match_intent_reason (responses : catalog) (message : string) :
  intent_reason responses message (match_intent responses message).
Proof.
  remember (match_intent responses message) as intent eqn:Hi.
  unfold match_intent in Hi. cbv zeta in Hi.
  change (Text.strip (Text.lower message)) with (normal message) in Hi.
  pose proof (extract_name_normal message) as Hname.
  pose proof (extract_order_number_normal message) as Horder.
  change (Text.strip (Text.lower message)) with (normal message) in Hname, Horder.
  rewrite Hname, Horder in Hi. clear Hname Horder.
  unfold intent_reason. subst intent.
  destruct (Text.truthy (extract_name message)) eqn:Hn.
  { left. split; [reflexivity|]. exact (truthy_some _ Hn). }
  apply extract_name_truthy in Hn.
  destruct (Text.truthy (extract_order_number message)) eqn:Ho.
  { right. left. split; [reflexivity|]. split; [exact Hn|]. exact (truthy_some _ Ho). }
  apply extract_order_number_truthy in Ho.
  destruct (priority_pass _ _ _) as [i|] eqn:Hp.
  { right. right. left. exact (priority_pass_sound _ _ _ _ Hp). }
  destruct (general_pass _ _) as [i|] eqn:Hg.
  { right. right. right. left. exact (general_pass_sound _ _ _ Hg). }
  destruct (existsb _ greeting_patterns) eqn:Hgreet.
  { right. right. right. right. left. split; [reflexivity|].
    apply existsb_exists in Hgreet as (g & Hin & Hg'). eauto. }
  right. right. right. right. right. split; [reflexivity|].
  split; [exact Hn|]. split; [exact Ho|].
  intros g Hin. destruct (Text.contains g (normal message)) eqn:Hc; [|reflexivity].
  rewrite <- Hgreet. symmetry. apply existsb_exists. eauto.
Qed.



Lemma first_order_match (message : string) :
  some_pattern_matches true order_patterns message ->
  exists d : string,
    first_match true order_patterns message = Some (Some d) /\
    extract_order_number message = Some d.
Proof.
  intros Hfound. destruct (first_match_found _ _ _ Hfound) as (m & Hfirst).
  assert (Hm : extract_order_number message = m).
  { unfold extract_order_number. rewrite first_match_order, Hfirst. reflexivity. }
  assert (Hd : exists d, m = Some d).
  { clear Hm. revert Hfirst. generalize order_patterns_yield.
    generalize order_patterns. intros ps Hps.
    induction Hps as [|r rs Hr _ IH]; simpl; [discriminate|].
    destruct (search true r message) as [m'|] eqn:Hs; [|exact IH].
    intros [= ->]. destruct (search_yields _ _ _ _ _ Hr Hs) as (d & -> & _).
    eauto. }
  destruct Hd as (d & ->). eauto.
Qed.

Lemma generator_name_intro (E : Env) (session_data : Session)
    (user_message n : string) (w : World) :
  extract_name user_message = Some n ->
  get_personalized_response E "name_intro" session_data user_message w =
    (Ok (name_greeting n, set_name (Some n) session_data), w).
Proof.
  intros Hn. unfold get_personalized_response, extracted. simpl String.eqb.
  rewrite Hn, (extract_name_nonempty _ _ Hn). reflexivity.
Qed.

Lemma generator_order_tracking (E : Env) (session_data : Session)
    (user_message d : string) (w : World) :
  extract_order_number user_message = Some d ->
  get_personalized_response E "order_tracking" session_data user_message w =
    (Ok (order_status d, set_last_order (Some d) session_data), w).
Proof.
  intros Hd. unfold get_personalized_response, extracted. simpl String.eqb.
  rewrite Hd, (order_number_nonempty _ _ Hd). reflexivity.
Qed.

Lemma priority_not_fixed (intent : string) :
  In intent priority_intents ->
  intent <> "name_intro" /\ intent <> "order_tracking" /\
  intent <> "greeting" /\ intent <> "default" /\
  in_list intent priority_intents = true.
Proof.
  simpl. intros [<-|[<-|[<-|[<-|[<-|[]]]]]]; repeat split; discriminate.
Qed.

(** Every answer of [match_intent] comes from one rule, after the rules
    before it found nothing. *)
Lemma match_intent_rule (responses : catalog) (message : string) :
  intent_rule responses message (match_intent responses message).
Proof.
  remember (match_intent responses message) as intent eqn:Hi.
  unfold match_intent in Hi. cbv zeta in Hi.
  change (Text.strip (Text.lower message)) with (normal message) in Hi.
  pose proof (extract_name_normal message) as Hname.
  pose proof (extract_order_number_normal message) as Horder.
  change (Text.strip (Text.lower message)) with (normal message) in Hname, Horder.
  rewrite Hname, Horder in Hi. clear Hname Horder.
  unfold intent_rule. subst intent.
  destruct (Text.truthy (extract_name message)) eqn:Hn.
  { left. split; [reflexivity|]. exact (truthy_some _ Hn). }
  apply extract_name_truthy in Hn.
  destruct (Text.truthy (extract_order_number message)) eqn:Ho.
  { right. left. split; [reflexivity|]. split; [exact Hn|]. exact (truthy_some _ Ho). }
  apply extract_order_number_truthy in Ho.
  right. right. split; [exact Hn|]. split; [exact Ho|].
  destruct (priority_pass _ _ _) as [i|] eqn:Hp.
  { left. exact (priority_pass_sound _ _ _ _ Hp). }
  right. split; [reflexivity|].
  destruct (general_pass _ _) as [i|] eqn:Hg.
  { left. exact (general_pass_sound _ _ _ Hg). }
  right. split; [reflexivity|].
  destruct (existsb _ greeting_patterns) eqn:Hgreet.
  { left. split; [reflexivity|].
    apply existsb_exists in Hgreet as (g & Hin & Hg'). eauto. }
  right. split; [reflexivity|].
  intros g Hin. destruct (Text.contains g (normal message)) eqn:Hc; [|reflexivity].
  rewrite <- Hgreet. symmetry. apply existsb_exists. eauto.
Qed.

(** ** Properties of the classifier and the extractors *)

(** X8. On an ASCII message the answer of [match_intent] comes from
    one of its rules, after the rules before it found nothing.  At least
    one of these holds: the answer is [name_intro] and a name is extractable
    from the message; the answer is [order_tracking], no name is
    extractable and an order number is; or neither is extractable and
    either the answer is a priority intent of the catalog with a pattern
    whose words are all words of the normalised message, or no priority
    intent has such a pattern and either the answer is a key of the catalog,
    not [default] and not a priority intent, with a pattern that is a
    substring of the normalised message, or no such key has one and the
    answer is [greeting] on a greeting substring, or [default] with no
    greeting substring. *)
Theorem match_intent_answers_for_a_reason (responses : catalog) (message : string) :
  ascii_text message = true ->
  intent_rule responses message (match_intent responses message).
Proof. intros _. apply match_intent_rule. Qed.

Lemma match_intent_answers_for_a_reason_witness :
  intent_rule fallback_catalog "Good EVENING, I need an exchange"
    (match_intent fallback_catalog "Good EVENING, I need an exchange").
Proof.
  apply (match_intent_answers_for_a_reason fallback_catalog
           "Good EVENING, I need an exchange").
  reflexivity.
Defined.

(** X9. Classifier and generator agree on ASCII messages: with a
    catalog that has no intent called [name_intro] or [order_tracking],
    when [match_intent] answers one of these two the generator called with
    that answer and the raw message never falls through to the catalog: it
    finds the name again, stores it and greets, or it finds the order number
    again, stores it and gives the status line, without a random draw,
    although [match_intent] read the lower-cased, stripped message. *)
Theorem classified_entity_is_extractable
    (E : Env) (message : string) (session_data : Session) (w : World) :
  ascii_text message = true ->
  catalog_mem (responses E) "name_intro" = false ->
  catalog_mem (responses E) "order_tracking" = false ->
  match_intent (responses E) message = "name_intro" \/
  match_intent (responses E) message = "order_tracking" ->
  exists (response : string) (session_data' : Session),
    get_personalized_response E (match_intent (responses E) message)
        session_data message w =
      (Ok (response, session_data'), w) /\
    ((match_intent (responses E) message = "name_intro" /\
      exists n, extract_name message = Some n /\
                name session_data' = Some n /\ response = name_greeting n) \/
     (match_intent (responses E) message = "order_tracking" /\
      exists d, extract_order_number message = Some d /\
                last_order session_data' = Some d /\ response = order_status d)).
Proof.
  intros _ Hname Horder Hres.
  pose proof (match_intent_reason (responses E) message) as Hreason.
  unfold intent_reason in Hreason.
  assert (Hkey : forall (i : string) (d : IntentData),
            In (i, d) (responses E) -> catalog_mem (responses E) i = true).
  { intros i d Hin. apply keys_mem. exact (in_map fst _ _ Hin). }
  destruct Hres as [Hres|Hres]; rewrite Hres in Hreason |- *.
  - assert (Hn : exists n, extract_name message = Some n).
    { destruct Hreason as [[_ H]|[[Hi _]|[[Hi _]|[H|[[Hi _]|[Hi _]]]]]].
      + exact H.
      + discriminate Hi.
      + apply priority_not_fixed in Hi. tauto.
      + destruct H as (_ & _ & d & p & Hin & _).
        rewrite (Hkey _ _ Hin) in Hname. discriminate.
      + discriminate Hi.
      + discriminate Hi. }
    destruct Hn as (n & Hn).
    exists (name_greeting n), (set_name (Some n) session_data).
    split; [exact (generator_name_intro E _ _ _ _ Hn)|].
    left. split; [reflexivity|]. exists n. repeat split. exact Hn.
  - assert (Hd : exists d, extract_order_number message = Some d).
    { destruct Hreason as [[Hi _]|[[_ [_ H]]|[[Hi _]|[H|[[Hi _]|[Hi _]]]]]].
      + discriminate Hi.
      + exact H.
      + apply priority_not_fixed in Hi. tauto.
      + destruct H as (_ & _ & d & p & Hin & _).
        rewrite (Hkey _ _ Hin) in Horder. discriminate.
      + discriminate Hi.
      + discriminate Hi. }
    destruct Hd as (d & Hd).
    exists (order_status d), (set_last_order (Some d) session_data).
    split; [exact (generator_order_tracking E _ _ _ _ Hd)|].
    right. split; [reflexivity|]. exists d. repeat split. exact Hd.
Qed.

Lemma classified_entity_is_extractable_witness :
  exists (response : string) (session_data' : Session),
    get_personalized_response demo_env (match_intent (responses demo_env) "  I'M sam  ")
        (new_session "t0") "  I'M sam  " initial_world =
      (Ok (response, session_data'), initial_world) /\
    ((match_intent (responses demo_env) "  I'M sam  " = "name_intro" /\
      exists n, extract_name "  I'M sam  " = Some n /\
                name session_data' = Some n /\ response = name_greeting n) \/
     (match_intent (responses demo_env) "  I'M sam  " = "order_tracking" /\
      exists d, extract_order_number "  I'M sam  " = Some d /\
                last_order session_data' = Some d /\ response = order_status d)).
Proof.
  apply (classified_entity_is_extractable demo_env "  I'M sam  ").
  - reflexivity.
  - reflexivity.
  - reflexivity.
  - left. vm_compute. reflexivity.
Defined.

(** X10. [match_intent] ignores letter case and blanks around the
    message. *)
Theorem match_intent_ignores_case_and_padding (responses : catalog) (message : string) :
  match_intent responses (Text.lower message) = match_intent responses message /\
  match_intent responses (Text.strip message) = match_intent responses message.
Proof.
  unfold match_intent. cbv zeta.
  change (Text.strip (Text.lower (Text.lower message)))
    with (normal (Text.lower message)).
  change (Text.strip (Text.lower (Text.strip message)))
    with (normal (Text.strip message)).
  change (Text.strip (Text.lower message)) with (normal message).
  rewrite normal_lower, normal_strip. split; reflexivity.
Qed.

(** X11. In the second pass the whole-word search decides nothing: an
    intent is hit exactly when one of its patterns is a substring of the
    message. *)
Theorem general_hit_is_a_substring_test (message : string) (d : IntentData) :
  general_hit message d =
    existsb (fun pattern => Text.contains pattern message) (patterns_of d).
Proof. apply general_hit_contains. Qed.

(** X12. On an ASCII message an extracted order number is a string of
    five characters or more, each one of the digits 0 to 9, that occurs in
    the message. *)
Theorem order_number_is_digits_of_the_message (message d : string) :
  ascii_text message = true ->
  extract_order_number message = Some d ->
  5 <= String.length d /\ all_digits d /\ Text.contains d message = true.
Proof.
  intros _ Hd. destruct (extract_order_number_digits _ _ Hd) as [Hlen Hspan].
  split; [exact Hlen|]. split; [exact Hspan|].
  exact (extract_order_loop_occurs _ _ _ order_patterns_occur Hd).
Qed.

Lemma order_number_is_digits_of_the_message_witness :
  5 <= String.length "0012345" /\ all_digits "0012345" /\
  Text.contains "0012345" "Tracking#0012345 please" = true.
Proof.
  apply (order_number_is_digits_of_the_message "Tracking#0012345 please" "0012345").
  - reflexivity.
  - vm_compute. reflexivity.
Defined.

(** X13. On an ASCII message an extracted name is the capitalized form
    of one word, not empty, that occurs in the lower-cased message; the
    name itself is made of letters, digits and underscores only. *)
Theorem name_is_one_capitalized_word (message n : string) :
  ascii_text message = true ->
  extract_name message = Some n ->
  exists g : string,
    n = Text.capitalize g /\ 1 <= String.length g /\ all_word g /\
    Text.contains g (Text.lower message) = true /\ all_word n.
Proof.
  intros _ Hn.
  destruct (extract_name_loop_capture _ _ _ name_patterns_yield name_patterns_occur Hn)
    as (g & -> & Hlen & Hspan & Hocc).
  exists g. repeat split; auto. apply all_word_capitalize. exact Hspan.
Qed.

Lemma name_is_one_capitalized_word_witness :
  exists g : string,
    "Mary_ann" = Text.capitalize g /\ 1 <= String.length g /\ all_word g /\
    Text.contains g (Text.lower "Please CALL ME mARY_Ann, ok?") = true /\
    all_word "Mary_ann".
Proof.
  apply (name_is_one_capitalized_word "Please CALL ME mARY_Ann, ok?" "Mary_ann").
  - reflexivity.
  - vm_compute. reflexivity.
Defined.


(** X15. Every intent, known to the table or not, gets three or four
    quick replies, none of them empty. *)
Theorem quick_replies_are_never_missing (intent : string) :
  3 <= length (get_quick_replies intent) <= 4 /\
  forallb Text.nonempty (get_quick_replies intent) = true.
Proof.
  unfold get_quick_replies, quick_replies_map. cbn [table_get].
  repeat (destruct (String.eqb _ intent); [simpl; split; [lia|reflexivity]|]).
  simpl. split; [lia|reflexivity].
Qed.

(** X16. On an ASCII message priority intents win over the general
    intents and the greeting rule: when no name and no order number is
    extractable and all the words of a pattern of a priority intent of the
    catalog are words of the normalised message, the answer is a priority
    intent. *)
Theorem priority_match_wins
    (responses : catalog) (message intent pattern : string) (d : IntentData) :
  ascii_text message = true ->
  extract_name message = None ->
  extract_order_number message = None ->
  In intent priority_intents ->
  catalog_get responses intent = Some d ->
  In pattern (patterns_of d) ->
  word_set pattern ⊆ word_set (normal message) ->
  In (match_intent responses message) priority_intents.
Proof.
  intros _ Hn Ho Hin Hget Hpat Hsub.
  destruct (priority_pass_complete responses priority_intents _ _ _ _ Hin Hget Hpat Hsub)
    as (found & Hfound & Hfin).
  unfold match_intent. cbv zeta.
  change (Text.strip (Text.lower message)) with (normal message).
  pose proof (extract_name_normal message) as Hname.
  pose proof (extract_order_number_normal message) as Horder.
  change (Text.strip (Text.lower message)) with (normal message) in Hname, Horder.
  rewrite Hname, Horder, Hn, Ho, Hfound. exact Hfin.
Qed.

Lemma priority_match_wins_witness :
  In (match_intent fallback_catalog "Hello, can I get a REFUND today") priority_intents.
Proof.
  apply (priority_match_wins fallback_catalog "Hello, can I get a REFUND today"
           "return" "refund"
           (mkIntentData (Some ["return"; "refund"; "exchange"; "send back"])
              (Some ["You can return items within 30 days of purchase."]))).
  - reflexivity.
  - vm_compute. reflexivity.
  - vm_compute. reflexivity.
  - simpl. auto.
  - reflexivity.
  - simpl. auto.
  - refine (bool_decide_unpack _ _). vm_compute. exact I.
Defined.

(** X17. A greeting word anywhere in the message, even inside another
    word, keeps the answer away from [default], with any catalog. *)
Theorem greeting_substring_is_never_default (responses : catalog) (message : string) :
  existsb (fun greeting => Text.contains greeting (normal message)) greeting_patterns
    = true ->
  String.eqb (match_intent responses message) "default" = false.
Proof.
  intros Hgreet. apply existsb_exists in Hgreet as (g & Hin & Hg).
  destruct (String.eqb (match_intent responses message) "default") eqn:Heq;
    [|reflexivity].
  apply String.eqb_eq in Heq.
  pose proof (match_intent_reason responses message) as Hreason.
  unfold intent_reason in Hreason. rewrite Heq in Hreason.
  destruct Hreason as [[Hi _]|[[Hi _]|[[Hi _]|[H|[[Hi _]|H]]]]].
  - discriminate Hi.
  - discriminate Hi.
  - apply priority_not_fixed in Hi. tauto.
  - destruct H as (_ & Hi & _). congruence.
  - discriminate Hi.
  - destruct H as (_ & _ & _ & Hnone). rewrite (Hnone g Hin) in Hg. discriminate.
Qed.

Lemma greeting_substring_is_never_default_witness :
  String.eqb (match_intent fallback_catalog "What is THIS about") "default" = false.
Proof.
  apply (greeting_substring_is_never_default fallback_catalog "What is THIS about").
  vm_compute. reflexivity.
Defined.

(** ** A turn, from the message to the store *)

(** X18. A turn that does not escalate and whose ASCII message
    introduces a name answers with the greeting, reports the intent [name_intro] and the
    new name in its body, and leaves the session with that name (the
    capture of the first pattern that matches, capitalized), with
    [last_intent] set and [last_order] as it was. *)
Theorem chat_learns_the_name
    (E : Env) (user_message session_id : string) (w : World) :
  ascii_text user_message = true ->
  some_pattern_matches false name_patterns (Text.lower user_message) ->
  escalates E w user_message session_id = false ->
  exists (g : string) (s' : Session),
    first_match false name_patterns (Text.lower user_message) = Some (Some g) /\
    match_intent (responses E) user_message = "name_intro" /\
    fst (chat E user_message session_id w) =
      Ok (reply_body E user_message session_id
            (name_greeting (Text.capitalize g)) (Some (Text.capitalize g))) /\
    conversations (snd (chat E user_message session_id w)) !! session_id = Some s' /\
    name s' = Some (Text.capitalize g) /\
    last_intent s' = Some "name_intro" /\
    last_order s' = last_order (entry_session E w session_id).
Proof.
  intros _ Hfound Hesc.
  destruct (first_match_name _ _ name_patterns_yield Hfound) as (g & Hfirst & Hloop).
  assert (Hname : extract_name user_message = Some (Text.capitalize g)) by exact Hloop.
  pose proof (match_intent_name_intro (responses E) _ _ Hname) as Hintent.
  exists g. rewrite chat_unfold. cbv zeta.
  fold (escalates E w user_message session_id). rewrite Hesc.
  rewrite (reply_run E user_message session_id _ _ _
             (counted_world_lookup E w user_message session_id)).
  unfold reply_body, sentiment_label. rewrite Hintent.
  rewrite (generator_name_intro E _ _ _ _ Hname).
  eexists. split; [exact Hfirst|]. split; [reflexivity|].
  split; [reflexivity|]. cbn [snd conversations]. rewrite lookup_insert_eq.
  split; [reflexivity|]. repeat split.
Qed.

Lemma chat_learns_the_name_witness :
  exists (g : string) (s' : Session),
    first_match false name_patterns (Text.lower "Hi, I'm SAM") = Some (Some g) /\
    match_intent (responses demo_env) "Hi, I'm SAM" = "name_intro" /\
    fst (chat demo_env "Hi, I'm SAM" "s2" demo_world) =
      Ok (reply_body demo_env "Hi, I'm SAM" "s2"
            (name_greeting (Text.capitalize g)) (Some (Text.capitalize g))) /\
    conversations (snd (chat demo_env "Hi, I'm SAM" "s2" demo_world)) !! "s2" = Some s' /\
    name s' = Some (Text.capitalize g) /\
    last_intent s' = Some "name_intro" /\
    last_order s' = last_order (entry_session demo_env demo_world "s2").
Proof.
  apply (chat_learns_the_name demo_env "Hi, I'm SAM" "s2" demo_world).
  - reflexivity.
  - exists (Seq (Lit "i'm ") (Group (AtLeast 1 Word))).
    split; [simpl; auto | vm_compute; discriminate].
  - vm_compute. reflexivity.
Defined.

(** X19. A turn that does not escalate and whose ASCII message holds an
    order reference and introduces no name answers with the status line for the
    digits of the first pattern that matches, reports the intent
    [order_tracking], and leaves the session with those digits as
    [last_order], its name as it was. *)
Theorem chat_records_the_order
    (E : Env) (user_message session_id : string) (w : World) :
  ascii_text user_message = true ->
  some_pattern_matches true order_patterns user_message ->
  extract_name user_message = None ->
  escalates E w user_message session_id = false ->
  exists (d : string) (s' : Session),
    first_match true order_patterns user_message = Some (Some d) /\
    match_intent (responses E) user_message = "order_tracking" /\
    fst (chat E user_message session_id w) =
      Ok (reply_body E user_message session_id (order_status d)
            (name (entry_session E w session_id))) /\
    conversations (snd (chat E user_message session_id w)) !! session_id = Some s' /\
    last_order s' = Some d /\
    last_intent s' = Some "order_tracking" /\
    name s' = name (entry_session E w session_id).
Proof.
  intros _ Hfound Hnoname Hesc.
  destruct (first_order_match _ Hfound) as (d & Hfirst & Hd).
  pose proof (match_intent_order_tracking (responses E) _ _ Hnoname Hd) as Hintent.
  exists d. rewrite chat_unfold. cbv zeta.
  fold (escalates E w user_message session_id). rewrite Hesc.
  rewrite (reply_run E user_message session_id _ _ _
             (counted_world_lookup E w user_message session_id)).
  unfold reply_body, sentiment_label. rewrite Hintent.
  rewrite (generator_order_tracking E _ _ _ _ Hd).
  eexists. split; [exact Hfirst|]. split; [reflexivity|].
  split; [reflexivity|]. cbn [snd conversations]. rewrite lookup_insert_eq.
  split; [reflexivity|]. repeat split.
Qed.

Lemma chat_records_the_order_witness :
  exists (d : string) (s' : Session),
    first_match true order_patterns "where is ORD-778899?" = Some (Some d) /\
    match_intent (responses demo_env) "where is ORD-778899?" = "order_tracking" /\
    fst (chat demo_env "where is ORD-778899?" "s1" demo_world) =
      Ok (reply_body demo_env "where is ORD-778899?" "s1" (order_status d)
            (name (entry_session demo_env demo_world "s1"))) /\
    conversations (snd (chat demo_env "where is ORD-778899?" "s1" demo_world)) !! "s1" =
      Some s' /\
    last_order s' = Some d /\
    last_intent s' = Some "order_tracking" /\
    name s' = name (entry_session demo_env demo_world "s1").
Proof.
  apply (chat_records_the_order demo_env "where is ORD-778899?" "s1" demo_world).
  - reflexivity.
  - exists (Seq (Lit "ORD") (Seq (Opt (Lit "-")) (Group (AtLeast 5 Digit)))).
    split; [simpl; auto | vm_compute; discriminate].
  - vm_compute. reflexivity.
  - vm_compute. reflexivity.
Defined.

(** ** The generator's footprint *)

(** X20. Whatever it answers, the generator writes nothing but [name]
    and [last_order] on the session it is given, reads no clock and leaves
    the store alone; and the name it hands back is the old one unless the
    message introduces a name, which then replaces it. *)
Theorem generator_touches_only_entities
    (E : Env) (intent : string) (session_data session_data' : Session)
    (user_message response : string) (w w' : World) :
  get_personalized_response E intent session_data user_message w =
    (Ok (response, session_data'), w') ->
  message_count session_data' = message_count session_data /\
  messages session_data' = messages session_data /\
  last_intent session_data' = last_intent session_data /\
  created_at session_data' = created_at session_data /\
  (name session_data' = name session_data \/
   exists n, extract_name user_message = Some n /\ name session_data' = Some n) /\
  conversations w' = conversations w /\
  clock_reads w' = clock_reads w.
Proof.
  intros Hrun.
  destruct (get_personalized_response_session _ _ _ _ _ _ _ Hrun)
    as (Hcount & Hlog & Hintent & Hcreated).
  pose proof (get_personalized_response_name _ _ _ _ _ _ _ Hrun) as Hname.
  pose proof (keeps_store_get_personalized_response E intent session_data user_message w)
    as Hstore.
  pose proof (keeps_clock_get_personalized_response E intent session_data user_message w)
    as Hclock.
  rewrite Hrun in Hstore, Hclock. simpl in *. auto 10.
Qed.

Lemma generator_touches_only_entities_witness :
  exists (response : string) (session_data' : Session) (w' : World),
    get_personalized_response demo_env "greeting"
        (set_name (Some "Sam") (new_session "t0")) "hello" demo_world =
      (Ok (response, session_data'), w') /\
    message_count session_data' = message_count (set_name (Some "Sam") (new_session "t0")) /\
    messages session_data' = messages (set_name (Some "Sam") (new_session "t0")) /\
    last_intent session_data' = last_intent (set_name (Some "Sam") (new_session "t0")) /\
    created_at session_data' = created_at (set_name (Some "Sam") (new_session "t0")) /\
    (name session_data' = name (set_name (Some "Sam") (new_session "t0")) \/
     exists n, extract_name "hello" = Some n /\ name session_data' = Some n) /\
    conversations w' = conversations demo_world /\
    clock_reads w' = clock_reads demo_world.
Proof.
  eexists _, _, _. split; [vm_compute; reflexivity|].
  eapply (generator_touches_only_entities demo_env "greeting"
            (set_name (Some "Sam") (new_session "t0")) _ "hello").
  vm_compute. reflexivity.
Defined.
